(** * DirectoryTreeMapGenerator: a shallow embedding of [generate_tree_map.py]

    The module has two entry operations, [generate_tree_map] (text tree on
    standard output) and [generate_tree_map_json] (node structure, text tree
    and an optional JSON file).  Both walk a directory with [os.listdir],
    [os.path.isdir] and [os.path.join], and both print with [print].

    Conventions of the embedding.
    - A Python [str] is a [string] holding its UTF-8 bytes.  Python orders
      [str] by code point; on UTF-8 encodings that is the bytewise
      lexicographic order [String.compare].
    - What a path names is an [fsnode]; the path [os.path.join(curr_path,
      entry)] names the child of [curr_path] called [entry].
    - Output is a trace of [event]s, in program order. *)

From Stdlib Require Import String Ascii List ZArith Bool Lia.
From Stdlib Require Import Sorting.Sorted Sorting.Permutation.
From Stdlib Require Import Structures.OrderedTypeEx.
Import ListNotations.
Local Open Scope string_scope.
Local Open Scope Z_scope.
Set Warnings "-register-all".

(** ** Python values and exceptions *)

(** The values the program builds and hands to [json.dump]: [str], [list]
    and [dict] (a [dict] keeps the insertion order of its keys). *)
Inductive pyval : Type :=
| PStr (s : string)
| PList (items : list pyval)
| PDict (items : list (string * pyval)).

(** The exceptions, named by the call that raises them: [os.listdir] raises
    [FileNotFoundError], [NotADirectoryError] or [PermissionError];
    [WriteError] is the [OSError] of a failed [open] or [json.dump];
    [KeyError] and [TypeError] come from subscripts. *)
Inductive error : Type :=
| ValueError (msg : string)
| FileNotFoundError
| NotADirectoryError
| PermissionError
| WriteError
| KeyError (key : string)
| TypeError.

(** ** Effects: a trace of output events, and an exception *)

Inductive event : Type :=
| Print (s : string)
| Open (path mode encoding : string)
| JsonDump (path : string) (obj : pyval) (indent : Z).

Definition M (A : Type) : Type := (list event * (error + A))%type.

Definition ret {A} (a : A) : M A := ([], inr a).
Definition raise {A} (e : error) : M A := ([], inl e).
Definition bind {A B} (m : M A) (k : A -> M B) : M B :=
  match m with
  | (t, inl e) => (t, inl e)
  | (t, inr a) => let (t', r) := k a in ((t ++ t')%list, r)
  end.
Definition emit (ev : event) : M unit := ([ev], inr tt).
Definition print (s : string) : M unit := emit (Print s).

Notation "x <- m ;; k" := (bind m (fun x => k))
  (at level 61, m at next level, right associativity).
Notation "m ;; k" := (bind m (fun _ => k))
  (at level 61, right associativity).

Definition trace {A} (m : M A) : list event := fst m.
Definition result {A} (m : M A) : error + A := snd m.

(** The arguments of the [print] calls of a trace, in order; [print] ends
    each with a newline, so [stdout_text] is the text on standard output. *)
Fixpoint stdout (t : list event) : list string :=
  match t with
  | [] => []
  | Print s :: t' => s :: stdout t'
  | _ :: t' => stdout t'
  end.

Definition newline : string := String (ascii_of_nat 10) "".

Fixpoint stdout_text (lines : list string) : string :=
  match lines with
  | [] => ""
  | l :: ls => l ++ newline ++ stdout_text ls
  end.

(** The files the trace opens for writing. *)
Fixpoint opened (t : list event) : list string :=
  match t with
  | [] => []
  | Open p _ _ :: t' => p :: opened t'
  | _ :: t' => opened t'
  end.

(** The JSON documents the trace writes. *)
Fixpoint dumped (t : list event) : list (string * pyval * Z) :=
  match t with
  | [] => []
  | JsonDump p obj i :: t' => (p, obj, i) :: dumped t'
  | _ :: t' => dumped t'
  end.

(** ** The file system *)

(** What a path names: nothing, something that is not a directory, or a
    directory with its entries in the order [os.listdir] reports them.
    A directory that cannot be listed has [listable = false]. *)
Inductive fsnode : Type :=
| Absent
| File
| Dir (listable : bool) (entries : list (string * fsnode)).

Definition isdir (n : fsnode) : bool :=
  match n with Dir _ _ => true | _ => false end.

Definition listdir (n : fsnode) : error + list string :=
  match n with
  | Absent => inl FileNotFoundError
  | File => inl NotADirectoryError
  | Dir false _ => inl PermissionError
  | Dir true es => inr (map fst es)
  end.

(** The node named [entry] inside a directory with entries [es]. *)
Fixpoint child (entry : string) (es : list (string * fsnode)) : fsnode :=
  match es with
  | [] => Absent
  | (n, c) :: es' => if String.eqb n entry then c else child entry es'
  end.

(** [if os.path.isdir(os.path.join(curr_path, entry)): k_dir else: k_other],
    where [k_dir] receives what the joined path names. *)
Definition if_isdir {A} (entry : string) (k_dir : fsnode -> A) (k_other : A)
  : list (string * fsnode) -> A :=
  fix go es :=
    match es with
    | [] => k_other
    | (n, c) :: es' =>
        if String.eqb n entry
        then match c with Dir _ _ => k_dir c | _ => k_other end
        else go es'
    end.

(** ** [sorted] and the hidden-entry filter *)

Fixpoint insert_sorted (x : string) (l : list string) : list string :=
  match l with
  | [] => [x]
  | y :: l' => if String.leb x y then x :: l else y :: insert_sorted x l'
  end.

(** [sorted(names)] on a list of [str]. *)
Fixpoint sorted (l : list string) : list string :=
  match l with
  | [] => []
  | x :: l' => insert_sorted x (sorted l')
  end.

(** [e.startswith(".")] *)
Definition startswith_dot (e : string) : bool := String.prefix "." e.

(** [[e for e in entries if not e.startswith(".")]] *)
Definition skip_hidden (entries : list string) : list string :=
  filter (fun e => negb (startswith_dot e)) entries.

(** ** generate_tree_map *)

Module Text.

(** [special_comments] of [generate_tree_map.comment_for_file]. *)
Definition special_comments : list (string * string) :=
  [ ("main.py", "◀ CLI entry point");
    ("pyproject.toml", "◀ For installability (recommended)") ].

Fixpoint dict_get (key : string) (d : list (string * string)) : option string :=
  match d with
  | [] => None
  | (k, v) :: d' => if String.eqb k key then Some v else dict_get key d'
  end.

Definition comment_for_file (filename : string) : string :=
  match dict_get filename special_comments with
  | Some label => "◀ " ++ label
  | None => ""
  end.

Section Walk.
Variables indent last_indent spacer final_spacer : string.

(** The [for index, entry in enumerate(entries)] loop of [walk_dir];
    [visit] is the recursive call and [n] is [len(entries)]. *)
Definition walk_loop (visit : fsnode -> string -> bool -> M unit)
    (es : list (string * fsnode)) (prefix : string) (n : Z)
  : Z -> list string -> M unit :=
  fix loop index entries :=
    match entries with
    | [] => ret tt
    | entry :: rest =>
        let is_entry_last := index =? n - 1 in
        let branch := if is_entry_last then last_indent else indent in
        let line_prefix := prefix ++ branch in
        let next_prefix :=
          prefix ++ (if is_entry_last then final_spacer else spacer) in
        if_isdir entry
          (fun full_path =>
             print (line_prefix ++ entry ++ "/") ;;
             visit full_path next_prefix is_entry_last)
          (let comment := comment_for_file entry in
           print (line_prefix ++ entry ++ " " ++ comment))
          es ;;
        loop (index + 1) rest
    end.

Fixpoint walk_dir (curr_path : fsnode) (prefix : string) (is_last : bool)
  : M unit :=
  match curr_path with
  | Absent => raise FileNotFoundError
  | File => raise NotADirectoryError
  | Dir false _ => raise PermissionError
  | Dir true es =>
      let entries := sorted (map fst es) in
      let entries := skip_hidden entries in
      walk_loop walk_dir es prefix (Z.of_nat (length entries)) 0 entries
  end.
End Walk.

End Text.

(** ** generate_tree_map_json *)

Module Json.

(** [special_comments] of [generate_tree_map_json.comment_for_file]. *)
Definition special_comments : list (string * string) :=
  [ ("main.py", "◀ CLI entry point");
    ("pyproject.toml", "◀ For installability (recommended)") ].

(** [special_comments.get(filename, "")] *)
Definition comment_for_file (filename : string) : string :=
  match Text.dict_get filename special_comments with
  | Some label => label
  | None => ""
  end.

(** The [for entry in entries] loop of [walk_dir_json], threading the list
    [tree] that [tree.append] extends; [visit] is the recursive call. *)
Definition walk_loop_json (visit : fsnode -> M (list pyval))
    (es : list (string * fsnode))
  : list pyval -> list string -> M (list pyval) :=
  fix loop tree entries :=
    match entries with
    | [] => ret tree
    | entry :: rest =>
        tree <- if_isdir entry
                  (fun full_path =>
                     subtree <- visit full_path ;;
                     ret (tree ++ [PDict [("type", PStr "directory");
                                          ("name", PStr entry);
                                          ("children", PList subtree)]])%list)
                  (ret (tree ++ [PDict [("type", PStr "file");
                                        ("name", PStr entry);
                                        ("comment",
                                          PStr (comment_for_file entry))]])%list)
                  es ;;
        loop tree rest
    end.

Fixpoint walk_dir_json (curr_path : fsnode) : M (list pyval) :=
  match curr_path with
  | Absent => raise FileNotFoundError
  | File => raise NotADirectoryError
  | Dir false _ => raise PermissionError
  | Dir true es =>
      let entries := sorted (map fst es) in
      let entries := skip_hidden entries in
      walk_loop_json walk_dir_json es [] entries
  end.

(** [node[key]], the value handed to [k]: [KeyError] when a [dict] lacks
    the key, [TypeError] when [node] is a [str] or a [list]. *)
Definition subscript {A} (key : string) (k : pyval -> M A) (node : pyval)
  : M A :=
  match node with
  | PDict items =>
      (fix go items :=
         match items with
         | [] => raise (KeyError key)
         | (k', v) :: items' => if String.eqb k' key then k v else go items'
         end) items
  | PStr _ | PList _ => raise TypeError
  end.

Notation "x <-[ node , key ] ;; k" := (subscript key (fun x => k) node)
  (at level 61, right associativity).

(** [v == "directory"] *)
Definition eq_str (v : pyval) (s : string) : bool :=
  match v with PStr s' => String.eqb s' s | _ => false end.

(** Truth value of [v] in a condition. *)
Definition truthy (v : pyval) : bool :=
  match v with
  | PStr "" | PList [] | PDict [] => false
  | _ => true
  end.

(** [v] inside an f-string.  Only [str] values are formatted in this
    model; the trees [walk_dir_json] builds hold no other value at the
    formatted keys (see [print_tree_ok]). *)
Definition format (v : pyval) : M string :=
  match v with PStr s => ret s | _ => raise TypeError end.

(** The [for idx, node in enumerate(tree)] loop of [print_tree]; [n] is
    [len(tree)] and [visit] the recursive call. *)
Definition print_loop (visit : pyval -> string -> M unit)
    (prefix : string) (n : Z)
  : Z -> list pyval -> M unit :=
  fix loop idx nodes :=
    match nodes with
    | [] => ret tt
    | node :: rest =>
        let is_last := idx =? n - 1 in
        let branch := if is_last then "└── " else "├── " in
        let next_prefix := prefix ++ (if is_last then "    " else "│   ") in
        (ty <-[ node, "type" ] ;;
         if eq_str ty "directory" then
           name <-[ node, "name" ] ;;
           name <- format name ;;
           print (prefix ++ branch ++ name ++ "/") ;;
           children <-[ node, "children" ] ;;
           visit children next_prefix
         else
           c <-[ node, "comment" ] ;;
           comment <- (if truthy c then
                         c <-[ node, "comment" ] ;;
                         c <- format c ;;
                         ret (" " ++ c)
                       else ret "") ;;
           name <-[ node, "name" ] ;;
           name <- format name ;;
           print (prefix ++ branch ++ name ++ comment)) ;;
        loop (idx + 1) rest
    end.

(** [print_tree(tree, prefix)].  Iterating a non-empty [str] or [dict]
    yields [str] items, whose subscript by ["type"] is a [TypeError]. *)
Fixpoint print_tree (tree : pyval) (prefix : string) : M unit :=
  match tree with
  | PList nodes =>
      print_loop print_tree prefix (Z.of_nat (length nodes)) 0 nodes
  | PStr "" | PDict [] => ret tt
  | PStr _ | PDict _ => raise TypeError
  end.

End Json.

(** ** The host and the two entry operations *)

Record host : Type := {
  names : string -> fsnode;            (* what a path names *)
  basename_abspath : string -> string; (* os.path.basename(os.path.abspath(p)) *)
  open_ok : string -> bool;            (* open(p, "w", ...) succeeds *)
  dump_ok : string -> bool             (* json.dump and the close succeed *)
}.

Definition generate_tree_map (h : host) (root_path : string)
    (indent last_indent spacer final_spacer : string) : M unit :=
  let root_dir_name := basename_abspath h root_path in
  print (root_dir_name ++ "/") ;;
  Text.walk_dir indent last_indent spacer final_spacer
    (names h root_path) "" false.

(** The call [generate_tree_map(root_path)], with the default glyphs. *)
Definition generate_tree_map_default (h : host) (root_path : string) : M unit :=
  generate_tree_map h root_path "├── " "└── " "│   " "    ".

Definition generate_tree_map_json (h : host) (root_path : string)
    (output_json_path : option string) : M unit :=
  if negb (isdir (names h root_path)) then
    raise (ValueError ("'" ++ root_path ++ "' is not a valid directory."))
  else
    tree_structure <- Json.walk_dir_json (names h root_path) ;;
    let root_name := basename_abspath h root_path in
    print (root_name ++ "/") ;;
    Json.print_tree (PList tree_structure) "" ;;
    match output_json_path with
    | None | Some "" => ret tt
    | Some path =>
        emit (Open path "w" "utf-8") ;;
        (if open_ok h path then ret tt else raise WriteError) ;;
        emit (JsonDump path
                (PDict [("root", PStr root_name);
                        ("structure", PList tree_structure)]) 4) ;;
        (if dump_ok h path then ret tt else raise WriteError) ;;
        print (newline ++ "✅ Tree structure saved to " ++ path)
    end.

(** ** The specification's data model and text renderer

    [entry] is the Directory Entry of the specification (section 3) and
    [render_spec] its Text Renderer (section 4.4), with the text that follows
    a file's name left as the parameter [suffix]. *)

Inductive entry : Type :=
| EFile (name comment : string)
| EDir (name : string) (children : list entry).

Definition entry_name (e : entry) : string :=
  match e with EFile n _ | EDir n _ => n end.

(** The node object of an entry, as [walk_dir_json] writes it. *)
Fixpoint encode (e : entry) : pyval :=
  match e with
  | EFile n c =>
      PDict [("type", PStr "file"); ("name", PStr n); ("comment", PStr c)]
  | EDir n cs =>
      PDict [("type", PStr "directory"); ("name", PStr n);
             ("children", PList (map encode cs))]
  end.

Definition is_nil {A} (l : list A) : bool :=
  match l with [] => true | _ => false end.

Section Render.
Variable suffix : string -> string -> string.

(** One sibling group: every entry but the last is rendered with
    [is_last = false]. *)
Definition render_group (render_one : entry -> bool -> list string)
  : list entry -> list string :=
  fix go ents :=
    match ents with
    | [] => []
    | e :: rest => (render_one e (is_nil rest) ++ go rest)%list
    end.

Fixpoint render_entry (prefix : string) (e : entry) (is_last : bool)
  : list string :=
  let branch := if is_last then "└── " else "├── " in
  let next_prefix := prefix ++ (if is_last then "    " else "│   ") in
  match e with
  | EFile n c => [prefix ++ branch ++ n ++ suffix n c]
  | EDir n cs =>
      (prefix ++ branch ++ n ++ "/")
        :: render_group (render_entry next_prefix) cs
  end.

Definition render_spec (ents : list entry) (prefix : string) : list string :=
  render_group (render_entry prefix) ents.
End Render.

(** The suffix of the specification: the annotation after one space when it
    is not empty, nothing otherwise. *)
Definition spec_suffix (name comment : string) : string :=
  if String.eqb comment "" then "" else " " ++ comment.

(** No entry of the tree is a file. *)
Fixpoint no_file (e : entry) : bool :=
  match e with
  | EFile _ _ => false
  | EDir _ cs => forallb no_file cs
  end.

(** ** The walkers against the specification's Recursive Walker

    [scan_spec] is the Recursive Walker of the specification (section 4.3) as
    a total function: the entries of a listable directory that are not
    hidden, sorted by name, each classified by [os.path.isdir]. *)

Definition scan_entry (scan : fsnode -> list entry)
    (es : list (string * fsnode)) (name : string) : entry :=
  if_isdir name (fun c => EDir name (scan c))
    (EFile name (Json.comment_for_file name)) es.

Fixpoint scan_spec (d : fsnode) : list entry :=
  match d with
  | Dir true es =>
      map (scan_entry scan_spec es) (skip_hidden (sorted (map fst es)))
  | _ => []
  end.

(** What the text operation prints after a file's name. *)
Definition text_suffix (name comment : string) : string :=
  " " ++ Text.comment_for_file name.

Definition walk_dir_default : fsnode -> string -> bool -> M unit :=
  Text.walk_dir "├── " "└── " "│   " "    ".

(** ** What the inductions establish of one entry or one directory *)

(** [print_tree] prints the children of a directory entry as the
    specification renders them. *)
Definition print_tree_renders (e : entry) : Prop :=
  match e with
  | EFile _ _ => True
  | EDir _ cs =>
      forall prefix,
        Json.print_tree (PList (map encode cs)) prefix
        = (map Print (render_spec spec_suffix cs prefix), inr tt)
  end.

(** [walk_dir_json] prints nothing, raises listing errors only, and when it
    returns, returns the scanned entries, which [walk_dir] has printed. *)
Definition walks_agree (d : fsnode) : Prop :=
  fst (Json.walk_dir_json d) = []
  /\ (forall e, snd (Json.walk_dir_json d) = inl e ->
        e = PermissionError \/ e = FileNotFoundError \/ e = NotADirectoryError)
  /\ (forall tree, snd (Json.walk_dir_json d) = inr tree ->
        tree = map encode (scan_spec d)
        /\ forall prefix is_last,
            walk_dir_default d prefix is_last
            = (map Print (render_spec text_suffix (scan_spec d) prefix), inr tt)).

(** ** The order on names *)

Definition le_str (a b : string) : Prop := String.leb a b = true.
Definition lt_str (a b : string) : Prop := String.ltb a b = true.

(** Adjacent names in strictly ascending order. *)
Fixpoint ascending (l : list string) : bool :=
  match l with
  | a :: (b :: _) as t => String.ltb a b && ascending t
  | _ => true
  end.

(** No name occurs twice. *)
Fixpoint distinct (l : list string) : bool :=
  match l with
  | [] => true
  | x :: l' => negb (existsb (String.eqb x) l') && distinct l'
  end.

(** [P] holds of the names of every sibling group, at every nesting level. *)
Fixpoint every_dir (P : list string -> bool) (e : entry) : bool :=
  match e with
  | EFile _ _ => true
  | EDir _ cs => P (map entry_name cs) && forallb (every_dir P) cs
  end.

Definition every_level (P : list string -> bool) (ents : list entry) : bool :=
  P (map entry_name ents) && forallb (every_dir P) ents.

(** No two entries of a directory have the same name, as in every listing
    [os.listdir] returns. *)
Fixpoint distinct_names (d : fsnode) : bool :=
  match d with
  | Dir _ es =>
      distinct (map fst es) && forallb (fun '(_, c) => distinct_names c) es
  | _ => true
  end.

(** No name begins with a dot. *)
Definition all_visible (names : list string) : bool :=
  forallb (fun e => negb (startswith_dot e)) names.

(** ** The shape of the node objects *)

Inductive node_shape : pyval -> Prop :=
| shape_directory name children :
    Forall node_shape children ->
    node_shape (PDict [("type", PStr "directory"); ("name", PStr name);
                       ("children", PList children)])
| shape_file name :
    node_shape (PDict [("type", PStr "file"); ("name", PStr name);
                       ("comment", PStr (Json.comment_for_file name))]).

(** ** Reading one sibling group back from the printed lines

    A line of the group printed with prefix [prefix] is that prefix, a branch
    glyph and the entry's label; the lines of deeper groups have a spacer in
    place of the branch glyph.  [group_labels] keeps the labels of the lines
    of the group, in the order they were printed. *)

Fixpoint strip_prefix (p s : string) : option string :=
  match p with
  | "" => Some s
  | String a p' =>
      match s with
      | String b s' => if Ascii.eqb a b then strip_prefix p' s' else None
      | "" => None
      end
  end.

Definition group_label (prefix line : string) : option string :=
  match strip_prefix (prefix ++ "├── ") line with
  | Some label => Some label
  | None => strip_prefix (prefix ++ "└── ") line
  end.

Fixpoint group_labels (prefix : string) (lines : list string) : list string :=
  match lines with
  | [] => []
  | l :: ls =>
      match group_label prefix l with
      | Some label => label :: group_labels prefix ls
      | None => group_labels prefix ls
      end
  end.

(** The label of an entry: its name and what follows it on its line. *)
Definition label (suffix : string -> string -> string) (e : entry) : string :=
  match e with
  | EFile n c => n ++ suffix n c
  | EDir n _ => n ++ "/"
  end.

(** Every line an entry is rendered to begins with the prefix. *)
Definition lines_start_with_prefix (suffix : string -> string -> string)
    (e : entry) : Prop :=
  forall prefix is_last,
    Forall (fun l => exists r, l = prefix ++ r)
      (render_entry suffix prefix e is_last).

(** ** A directory without its hidden entries *)

Definition prune_entries (prune : fsnode -> fsnode)
  : list (string * fsnode) -> list (string * fsnode) :=
  fix go es :=
    match es with
    | [] => []
    | (n, c) :: es' =>
        if startswith_dot n then go es' else (n, prune c) :: go es'
    end.

(** [prune d] is [d] with every entry whose name begins with a dot removed,
    at every nesting level, together with all it contains. *)
Fixpoint prune (d : fsnode) : fsnode :=
  match d with
  | Dir b es => Dir b (prune_entries prune es)
  | _ => d
  end.

Definition prune_host (h : host) : host := {|
  names := fun p => prune (names h p);
  basename_abspath := basename_abspath h;
  open_ok := open_ok h;
  dump_ok := dump_ok h |}.

(** When [walk_dir_json] raises, [walk_dir] raises the same error. *)
Definition errors_agree (d : fsnode) : Prop :=
  forall e,
    snd (Json.walk_dir_json d) = inl e ->
    forall prefix is_last, snd (walk_dir_default d prefix is_last) = inl e.

(** Both walkers run on [d] as on [prune d]. *)
Definition hidden_ignored (d : fsnode) : Prop :=
  (forall indent last_indent spacer final_spacer prefix is_last,
      Text.walk_dir indent last_indent spacer final_spacer
        (prune d) prefix is_last
      = Text.walk_dir indent last_indent spacer final_spacer d prefix is_last)
  /\ Json.walk_dir_json (prune d) = Json.walk_dir_json d.

(** ** Parts of a run of [generate_tree_map_json] *)

(** The statements of [generate_tree_map_json] after the printing pass. *)
Definition save_step (h : host) (root_name : string)
    (tree_structure : list pyval) (output_json_path : option string) : M unit :=
  match output_json_path with
  | None | Some "" => ret tt
  | Some path =>
      emit (Open path "w" "utf-8") ;;
      (if open_ok h path then ret tt else raise WriteError) ;;
      emit (JsonDump path
              (PDict [("root", PStr root_name);
                      ("structure", PList tree_structure)]) 4) ;;
      (if dump_ok h path then ret tt else raise WriteError) ;;
      print (newline ++ "✅ Tree structure saved to " ++ path)
  end.

(** The lines of the text tree the JSON operation prints for [tree]. *)
Definition tree_lines (h : host) (root_path : string) (tree : list pyval)
  : list string :=
  (basename_abspath h root_path ++ "/")
    :: stdout (trace (Json.print_tree (PList tree) "")).

(** The events of a trace that touch the output file. *)
Definition file_events (t : list event) : list event :=
  filter (fun ev => match ev with Print _ => false | _ => true end) t.

(** ** Hosts of the scenarios *)

(** Scenario A: [main.py], [util.py] and [lib/helper.py], listed out of
    order. *)
Definition scenario_a : host := {|
  names := fun _ =>
    Dir true [ ("util.py", File); ("main.py", File);
               ("lib", Dir true [("helper.py", File)]) ];
  basename_abspath := fun _ => "root";
  open_ok := fun _ => true;
  dump_ok := fun _ => true |}.

(** The node structure of scenario A. *)
Definition scenario_a_tree : list pyval :=
  [PDict [("type", PStr "directory"); ("name", PStr "lib");
          ("children",
            PList [PDict [("type", PStr "file"); ("name", PStr "helper.py");
                          ("comment", PStr "")]])];
   PDict [("type", PStr "file"); ("name", PStr "main.py");
          ("comment", PStr "◀ CLI entry point")];
   PDict [("type", PStr "file"); ("name", PStr "util.py");
          ("comment", PStr "")]].

(** A directory with the single file [util.py]. *)
Definition one_file_host : host := {|
  names := fun _ => Dir true [("util.py", File)];
  basename_abspath := fun _ => "root";
  open_ok := fun _ => true;
  dump_ok := fun _ => true |}.

(** A directory whose only entry is a subdirectory that cannot be listed. *)
Definition locked_host : host := {|
  names := fun _ => Dir true [("a", Dir false [])];
  basename_abspath := fun _ => "root";
  open_ok := fun _ => true;
  dump_ok := fun _ => true |}.

(** A directory whose only entry is an empty subdirectory. *)
Definition dirs_only_host : host := {|
  names := fun _ => Dir true [("a", Dir true [])];
  basename_abspath := fun _ => "root";
  open_ok := fun _ => true;
  dump_ok := fun _ => true |}.

(** Scenario B: only a hidden file and a hidden directory, which cannot
    even be listed. *)
Definition scenario_b : host := {|
  names := fun _ =>
    Dir true [(".hidden", File); (".git", Dir false [("config", File)])];
  basename_abspath := fun _ => "root";
  open_ok := fun _ => true;
  dump_ok := fun _ => true |}.

(** Scenario D: the root path names a file. *)
Definition scenario_d : host := {|
  names := fun _ => File;
  basename_abspath := fun _ => "notes.txt";
  open_ok := fun _ => true;
  dump_ok := fun _ => true |}.

(** Scenario A on a host where the output file cannot be opened. *)
Definition read_only_host : host := {|
  names := names scenario_a;
  basename_abspath := basename_abspath scenario_a;
  open_ok := fun _ => false;
  dump_ok := fun _ => true |}.

(** ** The command line

    The [if __name__ == "__main__":] block, once [argparse] has produced
    [args.target]. *)


(** ** Notions for the further properties *)



(** The value a [dict] holds at [key]. *)
Fixpoint dict_lookup (key : string) (items : list (string * pyval))
  : option pyval :=
  match items with
  | [] => None
  | (k, v) :: items' =>
      if String.eqb k key then Some v else dict_lookup key items'
  end.

(** The number of entries of a tree, at all levels. *)
Fixpoint count_entry (e : entry) : nat :=
  match e with
  | EFile _ _ => 1
  | EDir _ cs => S (fold_right (fun c n => count_entry c + n) 0 cs)
  end%nat.

Definition count_entries (ents : list entry) : nat :=
  fold_right (fun c n => count_entry c + n)%nat 0%nat ents.

Definition is_dir_entry (e : entry) : bool :=
  match e with EDir _ _ => true | EFile _ _ => false end.





(** [d'] is [d] listed in another order: at every level the same names, and
    each name names the same thing. *)
Inductive relisted : fsnode -> fsnode -> Prop :=
| relisted_absent : relisted Absent Absent
| relisted_file : relisted File File
| relisted_dir b es es' :
    Permutation (map fst es) (map fst es') ->
    (forall name, relisted (child name es) (child name es')) ->
    relisted (Dir b es) (Dir b es').

(** Both walkers run alike on [d] and [d']. *)
Definition walks_alike (d d' : fsnode) : Prop :=
  (forall indent last_indent spacer final_spacer prefix is_last,
      Text.walk_dir indent last_indent spacer final_spacer d prefix is_last
      = Text.walk_dir indent last_indent spacer final_spacer d' prefix is_last)
  /\ Json.walk_dir_json d = Json.walk_dir_json d'.

(** The lines of a tree of entries drawn with the glyphs [indent],
    [last_indent], [spacer] and [final_spacer]; [suffix] is what follows the
    name of a file. *)
Fixpoint render_entry_with (indent last_indent spacer final_spacer : string)
    (suffix : string -> string -> string)
    (prefix : string) (e : entry) (is_last : bool) : list string :=
  let branch := if is_last then last_indent else indent in
  let next_prefix := prefix ++ (if is_last then final_spacer else spacer) in
  match e with
  | EFile n c => [prefix ++ branch ++ n ++ suffix n c]
  | EDir n cs =>
      (prefix ++ branch ++ n ++ "/")
        :: render_group
             (render_entry_with indent last_indent spacer final_spacer
                suffix next_prefix) cs
  end.

Definition render_with (indent last_indent spacer final_spacer : string)
    (suffix : string -> string -> string)
    (ents : list entry) (prefix : string) : list string :=
  render_group
    (render_entry_with indent last_indent spacer final_spacer suffix prefix)
    ents.

(** When [walk_dir_json] returns on [d], [walk_dir] with the given glyphs
    has printed the scanned entries of [d]. *)
Definition text_walk_renders (indent last_indent spacer final_spacer : string)
    (d : fsnode) : Prop :=
  forall tree,
    snd (Json.walk_dir_json d) = inr tree ->
    forall prefix is_last,
      Text.walk_dir indent last_indent spacer final_spacer d prefix is_last
      = (map Print
           (render_with indent last_indent spacer final_spacer text_suffix
              (scan_spec d) prefix),
         inr tt).


(** ** Induction principles for the nested types *)

Lemma fsnode_ind' (P : fsnode -> Prop) :
  P Absent -> P File ->
  (forall b es, Forall (fun p => P (snd p)) es -> P (Dir b es)) ->
  forall d, P d.
Proof.
  intros HA HF HD. fix IH 1. intros [| |b es]; [exact HA|exact HF|].
  apply HD. induction es as [|[n c] es IHes]; constructor.
  - apply IH.
  - exact IHes.
Qed.

Lemma entry_ind' (P : entry -> Prop) :
  (forall n c, P (EFile n c)) ->
  (forall n cs, Forall P cs -> P (EDir n cs)) ->
  forall e, P e.
Proof.
  intros HF HD. fix IH 1. intros [n c|n cs]; [apply HF|].
  apply HD. induction cs as [|c cs IHcs]; constructor.
  - apply IH.
  - exact IHcs.
Qed.

(** ** The monad on concrete computations *)

Lemma bind_ok {A B} (m : M A) (k : A -> M B) t a :
  m = (t, inr a) -> bind m k = ((t ++ fst (k a))%list, snd (k a)).
Proof. intros ->. unfold bind. destruct (k a); reflexivity. Qed.

Lemma bind_err {A B} (m : M A) (k : A -> M B) t e :
  m = (t, inl e) -> bind m k = (t, inl e).
Proof. intros ->. reflexivity. Qed.

Lemma bind_ext {A B} (m : M A) (k k' : A -> M B) :
  (forall a, k a = k' a) -> bind m k = bind m k'.
Proof. intros H. destruct m as [t [e|a]]; cbn; [reflexivity|now rewrite H]. Qed.

Lemma result_bind {A B} (m : M A) (k : A -> M B) :
  snd (bind m k)
  = match snd m with inl e => inl e | inr a => snd (k a) end.
Proof. destruct m as [t [e|a]]; cbn; [reflexivity|]. now destruct (k a). Qed.

Lemma bind_ret {A B} (a : A) (k : A -> M B) : bind (ret a) k = k a.
Proof. unfold bind, ret. destruct (k a); reflexivity. Qed.

Lemma bind_print {B} (s : string) (k : unit -> M B) :
  bind (print s) k = (Print s :: fst (k tt), snd (k tt)).
Proof. unfold bind, print, emit. destruct (k tt); reflexivity. Qed.

Lemma bind_emit {B} (ev : event) (k : unit -> M B) :
  bind (emit ev) k = (ev :: fst (k tt), snd (k tt)).
Proof. unfold bind, emit. destruct (k tt); reflexivity. Qed.

Lemma stdout_app t1 t2 : stdout (t1 ++ t2) = (stdout t1 ++ stdout t2)%list.
Proof.
  induction t1 as [|[s|p m e|p o i] t1 IH]; simpl; [reflexivity| |exact IH|exact IH].
  now rewrite IH.
Qed.

Lemma stdout_prints ls : stdout (map Print ls) = ls.
Proof. induction ls as [|l ls IH]; simpl; [reflexivity|now rewrite IH]. Qed.

Lemma opened_app t1 t2 : opened (t1 ++ t2) = (opened t1 ++ opened t2)%list.
Proof.
  induction t1 as [|[s|p m e|p o i] t1 IH]; simpl; [reflexivity|exact IH| |exact IH].
  now rewrite IH.
Qed.

Lemma dumped_app t1 t2 : dumped (t1 ++ t2) = (dumped t1 ++ dumped t2)%list.
Proof.
  induction t1 as [|[s|p m e|p o i] t1 IH]; simpl; [reflexivity|exact IH|exact IH|].
  now rewrite IH.
Qed.

Lemma opened_prints ls : opened (map Print ls) = [].
Proof. induction ls as [|l ls IH]; simpl; [reflexivity|exact IH]. Qed.

Lemma dumped_prints ls : dumped (map Print ls) = [].
Proof. induction ls as [|l ls IH]; simpl; [reflexivity|exact IH]. Qed.

Lemma append_assoc (a b c : string) : (a ++ b) ++ c = a ++ b ++ c.
Proof. induction a as [|x a IH]; simpl; [reflexivity|now rewrite IH]. Qed.

(** [if_isdir] tests what [child] finds. *)
Lemma if_isdir_child {A} entry (k_dir : fsnode -> A) k_other es :
  if_isdir entry k_dir k_other es =
  match child entry es with
  | Dir b cs => k_dir (Dir b cs)
  | _ => k_other
  end.
Proof.
  induction es as [|[n c] es IH]; simpl; [reflexivity|].
  destruct (String.eqb n entry); [|exact IH].
  destruct c; reflexivity.
Qed.

Lemma child_in (P : fsnode -> Prop) entry es :
  P Absent -> Forall (fun p => P (snd p)) es -> P (child entry es).
Proof.
  intros HA H. induction H as [|[n c] es Hc _ IH]; simpl; [exact HA|].
  destruct (String.eqb n entry); [exact Hc|exact IH].
Qed.

(** ** [print_tree] on encoded entries is the specification's renderer *)

Lemma is_last_test (rest : list entry) (idx n : Z) :
  idx + Z.of_nat (length rest) + 1 = n ->
  (idx =? n - 1) = is_nil rest.
Proof.
  intros H. destruct rest as [|e rest]; simpl in *.
  - apply Z.eqb_eq. lia.
  - apply Z.eqb_neq. lia.
Qed.

Lemma print_tree_list nodes prefix :
  Json.print_tree (PList nodes) prefix
  = Json.print_loop Json.print_tree prefix (Z.of_nat (length nodes)) 0 nodes.
Proof. reflexivity. Qed.

Lemma print_loop_render prefix n rest :
  Forall print_tree_renders rest ->
  forall idx, idx + Z.of_nat (length rest) = n ->
  Json.print_loop Json.print_tree prefix n idx (map encode rest)
  = (map Print (render_spec spec_suffix rest prefix), inr tt).
Proof.
  induction 1 as [|e rest He Hrest IH]; intros idx Hn; [reflexivity|].
  cbn [map Json.print_loop].
  rewrite (is_last_test rest idx n) by (cbn [length] in Hn; lia).
  assert (IH' := IH (idx + 1) ltac:(cbn [length] in Hn; lia)).
  unfold render_spec in *. cbn [render_group].
  destruct e as [name c|name cs].
  - cbn [encode Json.subscript String.eqb Ascii.eqb Bool.eqb Json.eq_str].
    cbn. unfold spec_suffix.
    destruct c as [|a c]; cbn; rewrite IH'; reflexivity.
  - cbn. red in He. rewrite <- print_tree_list, He. cbn. rewrite IH'. cbn.
    rewrite map_app. reflexivity.
Qed.

Lemma print_tree_render ents prefix :
  Json.print_tree (PList (map encode ents)) prefix
  = (map Print (render_spec spec_suffix ents prefix), inr tt).
Proof.
  assert (H : forall e, print_tree_renders e).
  { induction e as [n c|n cs IH] using entry_ind'; [exact I|].
    intros p. rewrite print_tree_list.
    apply print_loop_render; [exact IH|]. rewrite length_map. lia. }
  rewrite print_tree_list.
  apply print_loop_render; [|rewrite length_map; lia].
  apply Forall_forall. intros e _. apply H.
Qed.

(** ** The two walkers against the scan *)

Lemma is_last_test_names (rest : list string) (idx n : Z) :
  idx + Z.of_nat (length rest) + 1 = n ->
  (idx =? n - 1) = is_nil rest.
Proof.
  intros H. destruct rest as [|e rest]; simpl in *.
  - apply Z.eqb_eq. lia.
  - apply Z.eqb_neq. lia.
Qed.

Lemma is_nil_map {A B} (f : A -> B) l : is_nil (map f l) = is_nil l.
Proof. destruct l; reflexivity. Qed.

Lemma walk_loops_agree es :
  Forall (fun p => walks_agree (snd p)) es ->
  forall rest acc,
    fst (Json.walk_loop_json Json.walk_dir_json es acc rest) = []
    /\ (forall e,
          snd (Json.walk_loop_json Json.walk_dir_json es acc rest) = inl e ->
          e = PermissionError \/ e = FileNotFoundError \/ e = NotADirectoryError)
    /\ (forall tree,
          snd (Json.walk_loop_json Json.walk_dir_json es acc rest) = inr tree ->
          tree = (acc ++ map encode (map (scan_entry scan_spec es) rest))%list
          /\ forall prefix n index,
              index + Z.of_nat (length rest) = n ->
              Text.walk_loop "├── " "└── " "│   " "    "
                walk_dir_default es prefix n index rest
              = (map Print
                   (render_spec text_suffix
                      (map (scan_entry scan_spec es) rest) prefix),
                 inr tt)).
Proof.
  intros Hes. induction rest as [|entry rest IH]; intros acc.
  - cbn. split; [reflexivity|]. split; [discriminate|].
    intros tree [= <-]. rewrite app_nil_r. auto.
  - cbn [Json.walk_loop_json Text.walk_loop map length].
    unfold scan_entry at 1 3. rewrite !if_isdir_child.
    assert (Hc : walks_agree (child entry es)).
    { apply child_in; [|exact Hes].
      cbn. repeat split; try discriminate. intros e [= <-]. auto. }
    destruct (child entry es) as [| |b cs] eqn:Hchild.
    + rewrite bind_ret.
      destruct (IH (acc ++ [encode (EFile entry (Json.comment_for_file entry))])%list)
        as (Ht & He & Hok).
      split; [exact Ht|]. split; [exact He|].
      intros tree Htree. destruct (Hok tree Htree) as [-> Hwalk].
      split; [rewrite <- app_assoc; reflexivity|].
      intros prefix n index Hn.
      rewrite if_isdir_child, Hchild.
      rewrite (is_last_test_names rest index n) by lia.
      rewrite bind_print. rewrite (Hwalk prefix n (index + 1)) by lia.
      unfold render_spec. cbn. rewrite is_nil_map, append_assoc. reflexivity.
    + rewrite bind_ret.
      destruct (IH (acc ++ [encode (EFile entry (Json.comment_for_file entry))])%list)
        as (Ht & He & Hok).
      split; [exact Ht|]. split; [exact He|].
      intros tree Htree. destruct (Hok tree Htree) as [-> Hwalk].
      split; [rewrite <- app_assoc; reflexivity|].
      intros prefix n index Hn.
      rewrite if_isdir_child, Hchild.
      rewrite (is_last_test_names rest index n) by lia.
      rewrite bind_print. rewrite (Hwalk prefix n (index + 1)) by lia.
      unfold render_spec. cbn. rewrite is_nil_map, append_assoc. reflexivity.
    + destruct Hc as (Hct & Hce & Hcok).
      destruct (Json.walk_dir_json (Dir b cs)) as [t [e|subtree]] eqn:Hw;
        cbn in Hct; subst t.
      * cbn. split; [reflexivity|]. split; [|discriminate].
        intros e' [= <-]. apply Hce. reflexivity.
      * destruct (Hcok subtree eq_refl) as [-> Hcwalk].
        match goal with
        | |- context [bind (bind ?m ?k1) ?k2] =>
            change (bind m k1)
              with (@ret (list pyval)
                      (acc ++ [encode (EDir entry (scan_spec (Dir b cs)))])%list)
        end.
        rewrite bind_ret.
        destruct (IH (acc ++ [encode (EDir entry (scan_spec (Dir b cs)))])%list)
          as (Ht & He & Hok).
        split; [exact Ht|]. split; [exact He|].
        intros tree Htree. destruct (Hok tree Htree) as [-> Hwalk].
        split; [rewrite <- app_assoc; reflexivity|].
        intros prefix n index Hn.
        rewrite if_isdir_child, Hchild.
        rewrite (is_last_test_names rest index n) by lia.
        rewrite bind_print, Hcwalk.
        cbn [fst snd].
        rewrite (bind_ok _ _ _ tt) by reflexivity.
        rewrite (Hwalk prefix n (index + 1)) by lia.
        unfold render_spec. cbn.
        rewrite is_nil_map, map_app, append_assoc. reflexivity.
Qed.

Lemma walks_agree_all d : walks_agree d.
Proof.
  induction d as [| |b es IH] using fsnode_ind'.
  - cbn. repeat split; try discriminate. intros e [= <-]. auto.
  - cbn. repeat split; try discriminate. intros e [= <-]. auto.
  - destruct b.
    + destruct (walk_loops_agree es IH (skip_hidden (sorted (map fst es))) [])
        as (Ht & He & Hok).
      split; [exact Ht|]. split; [exact He|].
      intros tree Htree. destruct (Hok tree Htree) as [-> Hwalk].
      split; [reflexivity|]. intros prefix is_last.
      apply Hwalk. lia.
    + cbn. repeat split; try discriminate. intros e [= <-]. auto.
Qed.

Lemma walk_loops_errors es :
  Forall (fun p => errors_agree (snd p)) es ->
  forall rest acc e,
    snd (Json.walk_loop_json Json.walk_dir_json es acc rest) = inl e ->
    forall prefix n index,
      snd (Text.walk_loop "├── " "└── " "│   " "    "
             walk_dir_default es prefix n index rest) = inl e.
Proof.
  intros Hes. induction rest as [|entry rest IH]; intros acc e H prefix n index;
    [discriminate H|].
  cbn [Json.walk_loop_json Text.walk_loop] in *.
  rewrite if_isdir_child in H. rewrite if_isdir_child.
  assert (Hc : errors_agree (child entry es)).
  { apply child_in; [|exact Hes]. intros e' [= <-] p l. reflexivity. }
  rewrite result_bind in H. rewrite result_bind.
  destruct (child entry es) as [| |b cs].
  - cbn [ret print emit snd] in *. eapply IH, H.
  - cbn [ret print emit snd] in *. eapply IH, H.
  - cbv iota in H |- *. rewrite result_bind in H. rewrite result_bind.
    cbn [print emit snd].
    destruct (snd (Json.walk_dir_json (Dir b cs))) as [e'|subtree] eqn:Hw.
    + cbv beta iota in H. injection H as <-. now rewrite (Hc _ Hw).
    + destruct (walks_agree_all (Dir b cs)) as (_ & _ & Hok).
      destruct (Hok subtree Hw) as [_ Hwalk]. rewrite Hwalk.
      cbn [ret snd] in *. eapply IH, H.
Qed.

Lemma errors_agree_all d : errors_agree d.
Proof.
  induction d as [| |b es IH] using fsnode_ind'; intros e H prefix is_last;
    try (injection H as <-; reflexivity).
  destruct b; [|injection H as <-; reflexivity].
  exact (walk_loops_errors es IH _ [] e H prefix _ 0).
Qed.

(** ** The order on names and [sorted] *)

Lemma lt_str_iff a b : lt_str a b <-> String_as_OT.lt a b.
Proof.
  unfold lt_str, String.ltb. rewrite <- String_as_OT.cmp_lt.
  unfold String_as_OT.cmp. destruct (String.compare a b); split; congruence.
Qed.

Lemma lt_str_trans a b c : lt_str a b -> lt_str b c -> lt_str a c.
Proof. rewrite !lt_str_iff. apply String_as_OT.lt_trans. Qed.

Lemma lt_str_irrefl a : ~ lt_str a a.
Proof.
  rewrite lt_str_iff. intros H.
  exact (String_as_OT.lt_not_eq _ _ H eq_refl).
Qed.

Lemma le_str_iff a b : le_str a b <-> lt_str a b \/ a = b.
Proof.
  unfold le_str, lt_str, String.leb, String.ltb.
  destruct (String.compare a b) eqn:H.
  - apply String.compare_eq_iff in H. intuition.
  - intuition.
  - split; [discriminate|]. intros [H'| ->]; [discriminate|].
    assert (Heq : String.compare b b = Eq) by (apply String_as_OT.cmp_eq; reflexivity).
    congruence.
Qed.

Lemma le_str_trans a b c : le_str a b -> le_str b c -> le_str a c.
Proof.
  rewrite !le_str_iff. intros [Hab| ->] [Hbc| ->]; auto.
  left. eapply lt_str_trans; eassumption.
Qed.

Lemma not_le_str a b : String.leb a b = false -> lt_str b a.
Proof.
  unfold lt_str, String.leb, String.ltb. rewrite (String.compare_antisym b a).
  destruct (String.compare a b); simpl; congruence.
Qed.

Lemma insert_sorted_perm x l : Permutation (insert_sorted x l) (x :: l).
Proof.
  induction l as [|y l IH]; simpl; [reflexivity|].
  destruct (String.leb x y); [reflexivity|].
  rewrite IH. apply perm_swap.
Qed.

Lemma sorted_perm l : Permutation (sorted l) l.
Proof.
  induction l as [|x l IH]; simpl; [reflexivity|].
  rewrite insert_sorted_perm. now constructor.
Qed.

Lemma insert_sorted_sorted x l :
  StronglySorted le_str l -> StronglySorted le_str (insert_sorted x l).
Proof.
  induction 1 as [|y l Hl IH Hy]; simpl.
  - repeat constructor.
  - destruct (String.leb x y) eqn:Hxy.
    + constructor; [constructor; assumption|].
      constructor; [exact Hxy|].
      eapply Forall_impl; [|exact Hy].
      intros z Hz. eapply le_str_trans; eassumption.
    + constructor; [exact IH|].
      eapply Permutation_Forall; [symmetry; apply insert_sorted_perm|].
      constructor; [|exact Hy].
      apply le_str_iff. left. now apply not_le_str.
Qed.

Lemma sorted_sorted l : StronglySorted le_str (sorted l).
Proof.
  induction l as [|x l IH]; simpl; [constructor|].
  now apply insert_sorted_sorted.
Qed.

Lemma strongly_sorted_strict l :
  StronglySorted le_str l -> NoDup l -> StronglySorted lt_str l.
Proof.
  induction 1 as [|x l Hl IH Hx]; intros Hnd; [constructor|].
  inversion Hnd as [|? ? Hnotin Hnd']; subst.
  constructor; [auto|].
  rewrite Forall_forall in *. intros y Hy.
  destruct (proj1 (le_str_iff x y) (Hx y Hy)) as [H| ->]; [exact H|contradiction].
Qed.

Lemma strongly_sorted_filter {A} (R : A -> A -> Prop) f l :
  StronglySorted R l -> StronglySorted R (filter f l).
Proof.
  induction 1 as [|x l Hl IH Hx]; simpl; [constructor|].
  destruct (f x); [|exact IH].
  constructor; [exact IH|].
  rewrite Forall_forall in *. intros y Hy.
  apply Hx. apply filter_In in Hy. tauto.
Qed.

(** Filtering commutes with insertion into a sorted list. *)
Lemma filter_insert_sorted f x l :
  StronglySorted le_str l ->
  filter f (insert_sorted x l)
  = if f x then insert_sorted x (filter f l) else filter f l.
Proof.
  induction 1 as [|y l Hl IH Hy]; simpl.
  - destruct (f x); reflexivity.
  - destruct (String.leb x y) eqn:Hxy; simpl.
    + destruct (f x) eqn:Hfx; [|reflexivity].
      destruct (f y) eqn:Hfy; simpl; [now rewrite Hxy|].
      (* [y] is dropped: [x] still goes in front of what remains *)
      assert (Hall : Forall (le_str x) (filter f l)).
      { rewrite Forall_forall in *. intros z Hz.
        apply filter_In in Hz. eapply le_str_trans; [exact Hxy|].
        apply Hy. tauto. }
      destruct (filter f l) as [|z zs]; [reflexivity|].
      simpl. inversion Hall as [|? ? Hz _]; subst. now rewrite Hz.
    + rewrite IH. destruct (f y) eqn:Hfy; simpl.
      * destruct (f x); [|reflexivity]. simpl. now rewrite Hxy.
      * reflexivity.
Qed.

Lemma filter_sorted f l : filter f (sorted l) = sorted (filter f l).
Proof.
  induction l as [|x l IH]; simpl; [reflexivity|].
  rewrite filter_insert_sorted by apply sorted_sorted.
  destruct (f x); simpl; now rewrite IH.
Qed.

Lemma ascending_strongly_sorted l :
  ascending l = true <-> StronglySorted lt_str l.
Proof.
  split.
  - induction l as [|a l IH]; intros H; [constructor|].
    destruct l as [|b l]; [repeat constructor|].
    simpl in H. apply andb_prop in H as [Hab Hl].
    specialize (IH Hl). constructor; [exact IH|].
    constructor; [exact Hab|].
    inversion IH as [|? ? _ Hb]; subst.
    eapply Forall_impl; [|exact Hb].
    intros z Hz. eapply lt_str_trans; eassumption.
  - induction 1 as [|a l Hl IH Ha]; [reflexivity|].
    destruct l as [|b l]; [reflexivity|].
    simpl. inversion Ha; subst.
    apply andb_true_intro. split; assumption.
Qed.

Lemma distinct_NoDup l : distinct l = true -> NoDup l.
Proof.
  induction l as [|x l IH]; simpl; intros H; constructor.
  - apply andb_prop in H as [H _]. intros Hin.
    apply negb_true_iff in H.
    assert (existsb (String.eqb x) l = true); [|congruence].
    apply existsb_exists. exists x. split; [exact Hin|apply String.eqb_refl].
  - apply andb_prop in H as [_ H]. auto.
Qed.

Lemma visible_names_ascending names :
  distinct names = true -> ascending (skip_hidden (sorted names)) = true.
Proof.
  intros H. apply ascending_strongly_sorted.
  apply strongly_sorted_filter, strongly_sorted_strict.
  - apply sorted_sorted.
  - eapply Permutation_NoDup; [symmetry; apply sorted_perm|].
    now apply distinct_NoDup.
Qed.

(** ** Properties of every sibling group of a scanned tree *)

Lemma scan_entry_name scan es name :
  entry_name (scan_entry scan es name) = name.
Proof.
  unfold scan_entry. rewrite if_isdir_child.
  destruct (child name es); reflexivity.
Qed.

Lemma scan_names scan es names :
  map entry_name (map (scan_entry scan es) names) = names.
Proof.
  induction names as [|n names IH]; simpl; [reflexivity|].
  now rewrite scan_entry_name, IH.
Qed.

Lemma scan_spec_names b es :
  map entry_name (scan_spec (Dir b es))
  = if b then skip_hidden (sorted (map fst es)) else [].
Proof. destruct b; [apply scan_names|reflexivity]. Qed.

Section EveryLevel.
Variable P : list string -> bool.
Variable Q : fsnode -> Prop.
Hypothesis P_nil : P [] = true.
Hypothesis Q_listing :
  forall es, Q (Dir true es) -> P (skip_hidden (sorted (map fst es))) = true.
Hypothesis Q_child :
  forall b es entry, Q (Dir b es) -> Q (child entry es).

Lemma scan_every_level d : Q d -> every_level P (scan_spec d) = true.
Proof.
  induction d as [| |b es IH] using fsnode_ind'; intros HQ;
    try (unfold every_level; cbn; now rewrite P_nil).
  unfold every_level. rewrite scan_spec_names.
  destruct b; [|cbn; now rewrite P_nil].
  rewrite (Q_listing _ HQ). cbn [andb scan_spec].
  apply forallb_forall. intros e He.
  apply in_map_iff in He as (name & <- & _).
  unfold scan_entry. rewrite if_isdir_child.
  assert (Hc : Q (child name es)) by (eapply Q_child; exact HQ).
  assert (IHc : Q (child name es) ->
                every_level P (scan_spec (child name es)) = true).
  { apply (child_in (fun c => Q c -> every_level P (scan_spec c) = true));
      [|exact IH].
    intros _. unfold every_level. cbn. now rewrite P_nil. }
  destruct (child name es) as [| |b' cs]; [reflexivity|reflexivity|].
  exact (IHc Hc).
Qed.
End EveryLevel.

Lemma scan_visible d : every_level all_visible (scan_spec d) = true.
Proof.
  apply (scan_every_level all_visible (fun _ => True)); auto.
  intros es _. unfold all_visible, skip_hidden.
  apply forallb_forall. intros x Hx. apply filter_In in Hx. tauto.
Qed.

Lemma distinct_names_child b es entry :
  distinct_names (Dir b es) = true -> distinct_names (child entry es) = true.
Proof.
  cbn. intros H. apply andb_prop in H as [_ H].
  induction es as [|[n c] es IH]; [reflexivity|].
  cbn in H. apply andb_prop in H as [Hc Hes]. cbn.
  destruct (String.eqb n entry); auto.
Qed.

Lemma scan_ascending d :
  distinct_names d = true -> every_level ascending (scan_spec d) = true.
Proof.
  apply (scan_every_level ascending (fun d => distinct_names d = true)).
  - reflexivity.
  - intros es H. cbn in H. apply andb_prop in H as [H _].
    now apply visible_names_ascending.
  - apply distinct_names_child.
Qed.

(** ** The node objects have the stated shape *)

Lemma scan_shape d : Forall node_shape (map encode (scan_spec d)).
Proof.
  induction d as [| |b es IH] using fsnode_ind'; try constructor.
  destruct b; [|constructor].
  cbn [scan_spec]. apply Forall_forall. intros v Hv.
  apply in_map_iff in Hv as (e & <- & He).
  apply in_map_iff in He as (name & <- & _).
  unfold scan_entry. rewrite if_isdir_child.
  assert (IHc : Forall node_shape (map encode (scan_spec (child name es)))).
  { apply (child_in (fun c => Forall node_shape (map encode (scan_spec c))));
      [constructor|exact IH]. }
  destruct (child name es) as [| |b' cs]; cbn [encode]; constructor.
  exact IHc.
Qed.

(** ** The labels of a sibling group are printed in order *)

Lemma strip_prefix_app p q s :
  strip_prefix (p ++ q) (p ++ s) = strip_prefix q s.
Proof.
  induction p as [|a p IH]; simpl; [reflexivity|].
  now rewrite Ascii.eqb_refl.
Qed.

Lemma group_label_own prefix (is_last : bool) x :
  group_label prefix (prefix ++ (if is_last then "└── " else "├── ") ++ x)
  = Some x.
Proof.
  unfold group_label. rewrite !strip_prefix_app.
  destruct is_last; reflexivity.
Qed.

Lemma group_label_deeper prefix (is_last : bool) x :
  group_label prefix ((prefix ++ (if is_last then "    " else "│   ")) ++ x)
  = None.
Proof.
  unfold group_label. rewrite append_assoc, !strip_prefix_app.
  destruct is_last; reflexivity.
Qed.

Lemma group_labels_app prefix l1 l2 :
  group_labels prefix (l1 ++ l2)
  = (group_labels prefix l1 ++ group_labels prefix l2)%list.
Proof.
  induction l1 as [|l l1 IH]; simpl; [reflexivity|].
  destruct (group_label prefix l); simpl; now rewrite IH.
Qed.

Lemma group_labels_deeper prefix (is_last : bool) lines :
  Forall (fun l => exists r,
            l = (prefix ++ (if is_last then "    " else "│   ")) ++ r) lines ->
  group_labels prefix lines = [].
Proof.
  induction 1 as [|l ls [r ->] _ IH]; simpl; [reflexivity|].
  now rewrite group_label_deeper.
Qed.

Section RenderLines.
Variable suffix : string -> string -> string.

Lemma render_group_lines prefix ents :
  Forall (lines_start_with_prefix suffix) ents ->
  Forall (fun l => exists r, l = prefix ++ r)
    (render_group (render_entry suffix prefix) ents).
Proof.
  induction 1 as [|e ents He _ IH]; simpl; [constructor|].
  apply Forall_app. split; [apply He|exact IH].
Qed.

Lemma render_entry_lines e : lines_start_with_prefix suffix e.
Proof.
  induction e as [n c|n cs IH] using entry_ind'; intros prefix is_last.
  - repeat constructor. eexists. reflexivity.
  - cbn [render_entry]. constructor; [eexists; reflexivity|].
    eapply Forall_impl; [|apply (render_group_lines _ _ IH)].
    intros l [r ->]. rewrite append_assoc. eexists. reflexivity.
Qed.

Lemma render_spec_lines ents prefix :
  Forall (fun l => exists r, l = prefix ++ r) (render_spec suffix ents prefix).
Proof.
  apply render_group_lines, Forall_forall. intros e _.
  apply render_entry_lines.
Qed.

(** No line is re-ordered at render time: the labels of a sibling group
    are printed in the order of the entries. *)
Lemma group_labels_render ents prefix :
  group_labels prefix (render_spec suffix ents prefix)
  = map (label suffix) ents.
Proof.
  unfold render_spec.
  induction ents as [|e ents IH]; [reflexivity|].
  cbn [render_group map]. rewrite group_labels_app, IH.
  destruct e as [n c|n cs]; cbn [render_entry group_labels label app].
  - now rewrite group_label_own.
  - rewrite group_label_own.
    rewrite (group_labels_deeper prefix (is_nil ents))
      by apply (render_spec_lines cs).
    reflexivity.
Qed.
End RenderLines.

(** ** Hidden entries are ignored *)

Lemma prune_entries_names es :
  map fst (prune_entries prune es) = skip_hidden (map fst es).
Proof.
  induction es as [|[n c] es IH]; simpl; [reflexivity|].
  destruct (startswith_dot n); simpl; now rewrite IH.
Qed.

Lemma filter_idem {A} (f : A -> bool) l : filter f (filter f l) = filter f l.
Proof.
  induction l as [|x l IH]; simpl; [reflexivity|].
  destruct (f x) eqn:H; simpl; [rewrite H|]; now rewrite ?IH.
Qed.

Lemma prune_listing es :
  skip_hidden (sorted (map fst (prune_entries prune es)))
  = skip_hidden (sorted (map fst es)).
Proof.
  rewrite prune_entries_names. unfold skip_hidden.
  now rewrite !filter_sorted, filter_idem.
Qed.

Lemma child_prune entry es :
  startswith_dot entry = false ->
  child entry (prune_entries prune es) = prune (child entry es).
Proof.
  intros Hvis. induction es as [|[n c] es IH]; simpl; [reflexivity|].
  destruct (String.eqb n entry) eqn:Hn.
  - apply String.eqb_eq in Hn. subst n. rewrite Hvis. simpl.
    now rewrite String.eqb_refl.
  - destruct (startswith_dot n); [exact IH|]. simpl. now rewrite Hn.
Qed.

Lemma if_isdir_prune {A} entry (k_dir : fsnode -> A) k_other es :
  startswith_dot entry = false ->
  if_isdir entry k_dir k_other (prune_entries prune es)
  = if_isdir entry (fun c => k_dir (prune c)) k_other es.
Proof.
  intros Hvis. rewrite !if_isdir_child, child_prune by exact Hvis.
  destruct (child entry es); reflexivity.
Qed.

Lemma skip_hidden_visible l :
  Forall (fun e => startswith_dot e = false) (skip_hidden l).
Proof.
  apply Forall_forall. intros x Hx. apply filter_In in Hx as [_ Hx].
  now apply negb_true_iff.
Qed.

Lemma walk_loop_prune I L S F es :
  Forall (fun p => hidden_ignored (snd p)) es ->
  forall rest, Forall (fun e => startswith_dot e = false) rest ->
  forall prefix n index,
    Text.walk_loop I L S F (Text.walk_dir I L S F)
      (prune_entries prune es) prefix n index rest
    = Text.walk_loop I L S F (Text.walk_dir I L S F) es prefix n index rest.
Proof.
  intros Hes. induction 1 as [|entry rest Hvis _ IH]; intros prefix n index;
    [reflexivity|].
  cbn [Text.walk_loop]. rewrite IH, if_isdir_prune by exact Hvis.
  rewrite !if_isdir_child.
  assert (Hc : hidden_ignored (child entry es)).
  { apply child_in; [|exact Hes]. split; reflexivity. }
  destruct (child entry es) as [| |b cs]; try reflexivity.
  destruct Hc as [Hc _]. now rewrite Hc.
Qed.

Lemma walk_loop_json_prune es :
  Forall (fun p => hidden_ignored (snd p)) es ->
  forall rest, Forall (fun e => startswith_dot e = false) rest ->
  forall acc,
    Json.walk_loop_json Json.walk_dir_json (prune_entries prune es) acc rest
    = Json.walk_loop_json Json.walk_dir_json es acc rest.
Proof.
  intros Hes. induction 1 as [|entry rest Hvis _ IH]; intros acc;
    [reflexivity|].
  cbn [Json.walk_loop_json]. rewrite if_isdir_prune by exact Hvis.
  rewrite !if_isdir_child.
  assert (Hc : hidden_ignored (child entry es)).
  { apply child_in; [|exact Hes]. split; reflexivity. }
  destruct Hc as [_ Hc].
  destruct (child entry es) as [| |b cs];
    try rewrite Hc; apply bind_ext; intros tree; apply IH.
Qed.

Lemma hidden_ignored_all d : hidden_ignored d.
Proof.
  induction d as [| |b es IH] using fsnode_ind'; try (split; reflexivity).
  destruct b; [|split; reflexivity].
  split.
  - intros I L S F prefix is_last. cbn [prune Text.walk_dir].
    rewrite prune_listing.
    apply walk_loop_prune; [exact IH|apply skip_hidden_visible].
  - cbn [prune Json.walk_dir_json]. rewrite prune_listing.
    apply walk_loop_json_prune; [exact IH|apply skip_hidden_visible].
Qed.

(** ** The runs of the two entry operations *)

Lemma walk_dir_json_isdir d tree :
  result (Json.walk_dir_json d) = inr tree -> isdir d = true.
Proof. destruct d; cbn; [discriminate|discriminate|reflexivity]. Qed.

Lemma walk_dir_json_ok d tree :
  result (Json.walk_dir_json d) = inr tree ->
  Json.walk_dir_json d = ([], inr tree) /\ tree = map encode (scan_spec d).
Proof.
  unfold result. intros H.
  destruct (walks_agree_all d) as (Ht & _ & Hok).
  destruct (Hok tree H) as [Htree _].
  split; [|exact Htree].
  destruct (Json.walk_dir_json d) as [t r]. cbn in *. now subst.
Qed.

Lemma walk_dir_json_err d e :
  result (Json.walk_dir_json d) = inl e ->
  Json.walk_dir_json d = ([], inl e)
  /\ (e = PermissionError \/ e = FileNotFoundError \/ e = NotADirectoryError).
Proof.
  unfold result. intros H.
  destruct (walks_agree_all d) as (Ht & He & _).
  split; [|exact (He e H)].
  destruct (Json.walk_dir_json d) as [t r]. cbn in *. now subst.
Qed.

Lemma print_tree_ok d tree :
  result (Json.walk_dir_json d) = inr tree ->
  forall prefix,
    Json.print_tree (PList tree) prefix
    = (map Print (render_spec spec_suffix (scan_spec d) prefix), inr tt).
Proof.
  intros H prefix. apply walk_dir_json_ok in H as [_ ->].
  apply print_tree_render.
Qed.

Lemma json_run_ok h root_path o tree :
  result (Json.walk_dir_json (names h root_path)) = inr tree ->
  generate_tree_map_json h root_path o
  = ((Print (basename_abspath h root_path ++ "/")
        :: trace (Json.print_tree (PList tree) "")
        ++ trace (save_step h (basename_abspath h root_path) tree o))%list,
     result (save_step h (basename_abspath h root_path) tree o)).
Proof.
  intros H. unfold generate_tree_map_json.
  rewrite (walk_dir_json_isdir _ _ H). cbn [negb].
  pose proof (print_tree_ok _ _ H "") as Hp.
  destruct (walk_dir_json_ok _ _ H) as [Hw _].
  rewrite (bind_ok _ _ _ _ Hw). cbn [app].
  rewrite bind_print. cbn [fst snd].
  fold (save_step h (basename_abspath h root_path) tree o).
  rewrite (bind_ok _ _ _ _ Hp). rewrite Hp. reflexivity.
Qed.

Lemma json_run_not_dir h root_path o :
  isdir (names h root_path) = false ->
  generate_tree_map_json h root_path o
  = ([], inl (ValueError ("'" ++ root_path ++ "' is not a valid directory."))).
Proof.
  intros H. unfold generate_tree_map_json. now rewrite H.
Qed.

Lemma json_run_err h root_path o e :
  isdir (names h root_path) = true ->
  result (Json.walk_dir_json (names h root_path)) = inl e ->
  generate_tree_map_json h root_path o = ([], inl e).
Proof.
  intros Hd H. unfold generate_tree_map_json. rewrite Hd. cbn [negb].
  apply walk_dir_json_err in H as [Hw _].
  now rewrite (bind_err _ _ _ _ Hw).
Qed.

Lemma text_run_ok h root_path tree :
  result (Json.walk_dir_json (names h root_path)) = inr tree ->
  generate_tree_map_default h root_path
  = (Print (basename_abspath h root_path ++ "/")
       :: map Print
            (render_spec text_suffix (scan_spec (names h root_path)) ""),
     inr tt).
Proof.
  intros H. unfold generate_tree_map_default, generate_tree_map.
  destruct (walks_agree_all (names h root_path)) as (_ & _ & Hok).
  destruct (Hok tree H) as [_ Hwalk].
  rewrite bind_print. unfold walk_dir_default in Hwalk.
  now rewrite Hwalk.
Qed.

(** Without a file entry the text after a file's name plays no part. *)
Lemma render_no_file s1 s2 ents prefix :
  forallb no_file ents = true ->
  render_spec s1 ents prefix = render_spec s2 ents prefix.
Proof.
  assert (H : forall e, no_file e = true ->
                forall p l, render_entry s1 p e l = render_entry s2 p e l).
  { induction e as [n c|n cs IH] using entry_ind'; [discriminate|].
    cbn [no_file render_entry]. intros Hcs p l. f_equal.
    generalize (p ++ (if l then "    " else "│   ")). intros q.
    induction IH as [|c cs Hc _ IHcs]; [reflexivity|].
    cbn in Hcs. apply andb_prop in Hcs as [H1 H2].
    cbn [render_group]. now rewrite Hc, IHcs. }
  unfold render_spec. induction ents as [|e ents IH]; intros Hall;
    [reflexivity|].
  cbn in Hall. apply andb_prop in Hall as [H1 H2].
  cbn [render_group]. now rewrite (H e H1), IH.
Qed.

Lemma json_run_stdout h root_path o tree :
  result (Json.walk_dir_json (names h root_path)) = inr tree ->
  stdout (trace (generate_tree_map_json h root_path o))
  = (tree_lines h root_path tree
       ++ stdout (trace (save_step h (basename_abspath h root_path) tree o)))%list
  /\ opened (trace (generate_tree_map_json h root_path o))
     = opened (trace (save_step h (basename_abspath h root_path) tree o))
  /\ dumped (trace (generate_tree_map_json h root_path o))
     = dumped (trace (save_step h (basename_abspath h root_path) tree o)).
Proof.
  intros H. rewrite (json_run_ok _ _ _ _ H). unfold tree_lines.
  rewrite (print_tree_ok _ _ H). unfold trace. cbn [fst stdout opened dumped].
  rewrite stdout_app, opened_app, dumped_app.
  rewrite stdout_prints, opened_prints, dumped_prints. auto.
Qed.

Lemma json_comment_other name :
  name <> "main.py" -> name <> "pyproject.toml" ->
  Json.comment_for_file name = "".
Proof.
  intros H1 H2. unfold Json.comment_for_file, Json.special_comments.
  cbn [Text.dict_get].
  destruct (String.eqb_spec "main.py" name) as [E|_]; [now subst|].
  destruct (String.eqb_spec "pyproject.toml" name) as [E|_]; [now subst|].
  reflexivity.
Qed.

Lemma file_events_app t1 t2 :
  file_events (t1 ++ t2) = (file_events t1 ++ file_events t2)%list.
Proof. apply filter_app. Qed.

Lemma file_events_prints ls : file_events (map Print ls) = [].
Proof. induction ls as [|l ls IH]; [reflexivity|exact IH]. Qed.

Lemma text_comment_other name :
  name <> "main.py" -> name <> "pyproject.toml" ->
  Text.comment_for_file name = "".
Proof.
  intros H1 H2. unfold Text.comment_for_file, Text.special_comments.
  cbn [Text.dict_get].
  destruct (String.eqb_spec "main.py" name) as [E|_]; [now subst|].
  destruct (String.eqb_spec "pyproject.toml" name) as [E|_]; [now subst|].
  reflexivity.
Qed.

(** Both walkers begin with [os.listdir(curr_path)] and raise its error. *)
Lemma walkers_raise_listing_error d e :
  listdir d = inl e ->
  Json.walk_dir_json d = ([], inl e)
  /\ forall indent last_indent spacer final_spacer prefix is_last,
      Text.walk_dir indent last_indent spacer final_spacer d prefix is_last
      = ([], inl e).
Proof.
  destruct d as [| |[|] es]; cbn; intros [= <-]; split; reflexivity.
Qed.

(** * The claims *)

(** C1 (code defect).  The claim asks both annotators to return the fixed
    label of the table.  The annotator of [generate_tree_map_json] does; the
    one of [generate_tree_map] puts a second marker in front of the label,
    which already begins with one. *)
Theorem C1_text_annotator_repeats_marker :
  Text.comment_for_file "main.py" = "◀ ◀ CLI entry point"
  /\ Text.comment_for_file "pyproject.toml"
     = "◀ ◀ For installability (recommended)"
  /\ Json.comment_for_file "main.py" = "◀ CLI entry point"
  /\ Json.comment_for_file "pyproject.toml"
     = "◀ For installability (recommended)"
  /\ Text.comment_for_file "main.py" <> Json.comment_for_file "main.py".
Proof. repeat split. discriminate. Qed.

(** C2 (code defect).  The claim asks that a file line without annotation
    ends with the entry name.  [print_tree] prints it so; [walk_dir] of
    [generate_tree_map] always puts a space after the name, so the line of
    [util.py] ends with a space. *)
Theorem C2_text_file_line_trailing_space :
  stdout (trace (generate_tree_map_default one_file_host "."))
  = ["root/"; "└── util.py "]
  /\ stdout (trace (generate_tree_map_json one_file_host "." None))
     = ["root/"; "└── util.py"].
Proof. split; reflexivity. Qed.

(** C3, as stated, fails: with a subdirectory that cannot be listed, the
    text operation has printed two lines when the listing error is raised,
    the JSON operation none. *)
Lemma C3_counterexample :
  ~ (forall h root_path,
        isdir (names h root_path) = true ->
        stdout_text (stdout (trace (generate_tree_map_default h root_path)))
        = stdout_text
            (stdout (trace (generate_tree_map_json h root_path None)))).
Proof.
  intros H. specialize (H locked_host "." eq_refl). discriminate H.
Qed.

(** C3 (amended).  When the traversal of the root directory raises no
    listing error, both operations print the root line and then a rendering
    of the same entries, in the same order, with the same prefixes, branch
    glyphs and names; the two renderings differ at most in the text that
    follows the name on a file line, and are byte-identical when no file
    entry is reached.  When a listing fails below the root directory, both
    operations raise its error; the JSON operation has printed nothing, the
    text operation the root line and the lines that precede the failure. *)
Theorem C3_same_tree_up_to_file_suffix h root_path :
  (forall tree,
      result (Json.walk_dir_json (names h root_path)) = inr tree ->
      exists ents,
        tree = map encode ents
        /\ (exists suffix,
              stdout (trace (generate_tree_map_default h root_path))
              = (basename_abspath h root_path ++ "/")
                  :: render_spec suffix ents "")
        /\ (exists suffix,
              stdout (trace (generate_tree_map_json h root_path None))
              = (basename_abspath h root_path ++ "/")
                  :: render_spec suffix ents "")
        /\ (forallb no_file ents = true ->
            stdout_text (stdout (trace (generate_tree_map_default h root_path)))
            = stdout_text
                (stdout (trace (generate_tree_map_json h root_path None)))))
  /\ (forall e,
        isdir (names h root_path) = true ->
        result (Json.walk_dir_json (names h root_path)) = inl e ->
        generate_tree_map_json h root_path None = ([], inl e)
        /\ result (generate_tree_map_default h root_path) = inl e
        /\ exists lines,
            stdout (trace (generate_tree_map_default h root_path))
            = (basename_abspath h root_path ++ "/") :: lines).
Proof.
  split.
  - intros tree H. exists (scan_spec (names h root_path)).
    destruct (walk_dir_json_ok _ _ H) as [_ Htree].
    assert (Htext : stdout (trace (generate_tree_map_default h root_path))
                    = (basename_abspath h root_path ++ "/")
                        :: render_spec text_suffix
                             (scan_spec (names h root_path)) "").
    { rewrite (text_run_ok _ _ _ H). unfold trace. cbn [fst stdout].
      now rewrite stdout_prints. }
    assert (Hjson : stdout (trace (generate_tree_map_json h root_path None))
                    = (basename_abspath h root_path ++ "/")
                        :: render_spec spec_suffix
                             (scan_spec (names h root_path)) "").
    { destruct (json_run_stdout h root_path None tree H) as [-> _].
      unfold tree_lines. rewrite (print_tree_ok _ _ H).
      unfold trace. cbn [fst save_step ret stdout].
      now rewrite stdout_prints, app_nil_r. }
    split; [exact Htree|]. split; [eauto|]. split; [eauto|].
    intros Hno. rewrite Htext, Hjson.
    now rewrite (render_no_file text_suffix spec_suffix).
  - intros e Hd H. split; [exact (json_run_err _ _ _ _ Hd H)|].
    unfold generate_tree_map_default, generate_tree_map.
    rewrite bind_print. unfold result, trace. cbn [fst snd stdout].
    split; [|eauto].
    exact (errors_agree_all (names h root_path) e H "" false).
Qed.

Lemma C3_same_tree_witness :
  (exists ents,
      [PDict [("type", PStr "directory"); ("name", PStr "a");
              ("children", PList [])]] = map encode ents
      /\ (exists suffix,
            stdout (trace (generate_tree_map_default dirs_only_host "."))
            = (basename_abspath dirs_only_host "." ++ "/")
                :: render_spec suffix ents "")
      /\ (exists suffix,
            stdout (trace (generate_tree_map_json dirs_only_host "." None))
            = (basename_abspath dirs_only_host "." ++ "/")
                :: render_spec suffix ents "")
      /\ (forallb no_file ents = true ->
          stdout_text
            (stdout (trace (generate_tree_map_default dirs_only_host ".")))
          = stdout_text
              (stdout (trace (generate_tree_map_json dirs_only_host "." None)))))
  /\ (generate_tree_map_json locked_host "." None = ([], inl PermissionError)
      /\ result (generate_tree_map_default locked_host ".")
         = inl PermissionError
      /\ exists lines,
          stdout (trace (generate_tree_map_default locked_host "."))
          = (basename_abspath locked_host "." ++ "/") :: lines).
Proof.
  split.
  - apply (proj1 (C3_same_tree_up_to_file_suffix dirs_only_host ".")).
    reflexivity.
  - apply (proj2 (C3_same_tree_up_to_file_suffix locked_host "."));
      reflexivity.
Defined.

(** C4.  Entries whose name begins with a dot play no part in either
    operation: each runs on a directory exactly as on the same directory
    with every hidden entry, and all a hidden directory contains, removed
    (so nothing is printed for them and nothing below them is listed), and
    no node object of the structure bears a hidden name, at any level. *)
Theorem C4_hidden_entries_excluded h root_path :
  (forall indent last_indent spacer final_spacer,
      generate_tree_map (prune_host h) root_path
        indent last_indent spacer final_spacer
      = generate_tree_map h root_path indent last_indent spacer final_spacer)
  /\ (forall o,
        generate_tree_map_json (prune_host h) root_path o
        = generate_tree_map_json h root_path o)
  /\ (forall tree,
        result (Json.walk_dir_json (names h root_path)) = inr tree ->
        exists ents,
          tree = map encode ents /\ every_level all_visible ents = true).
Proof.
  destruct (hidden_ignored_all (names h root_path)) as [Htext Hjson].
  split; [|split].
  - intros I L S F. unfold generate_tree_map. cbn [prune_host names
      basename_abspath]. now rewrite Htext.
  - intros o. unfold generate_tree_map_json.
    cbn [prune_host names basename_abspath open_ok dump_ok].
    rewrite Hjson.
    replace (isdir (prune (names h root_path)))
      with (isdir (names h root_path))
      by (destruct (names h root_path); reflexivity).
    reflexivity.
  - intros tree H. exists (scan_spec (names h root_path)).
    split; [apply (walk_dir_json_ok _ _ H)|apply scan_visible].
Qed.

Lemma C4_hidden_entries_witness :
  generate_tree_map_json scenario_b "." None = ([Print "root/"], inr tt)
  /\ generate_tree_map_default scenario_b "." = ([Print "root/"], inr tt)
  /\ result (Json.walk_dir_json (names scenario_a ".")) = inr scenario_a_tree
  /\ exists ents,
      scenario_a_tree = map encode ents
      /\ every_level all_visible ents = true.
Proof.
  split; [reflexivity|]. split; [reflexivity|]. split; [reflexivity|].
  apply (C4_hidden_entries_excluded scenario_a "."). reflexivity.
Defined.

(** C5.  For every directory whose listing has no repeated name and whose
    traversal succeeds, the names of every sibling group of the structure
    are in strictly ascending order, at every nesting level, and the lines
    of a sibling group are printed, by both operations, in the order of the
    constructed children. *)
Theorem C5_entries_in_ascending_order d tree prefix is_last :
  distinct_names d = true ->
  result (Json.walk_dir_json d) = inr tree ->
  exists ents,
    tree = map encode ents
    /\ every_level ascending ents = true
    /\ group_labels prefix
         (stdout (trace (Json.print_tree (PList tree) prefix)))
       = map (label spec_suffix) ents
    /\ group_labels prefix
         (stdout (trace (walk_dir_default d prefix is_last)))
       = map (label text_suffix) ents.
Proof.
  intros Hd H. exists (scan_spec d).
  destruct (walk_dir_json_ok _ _ H) as [_ Htree].
  split; [exact Htree|]. split; [now apply scan_ascending|].
  destruct (walks_agree_all d) as (_ & _ & Hok).
  destruct (Hok tree H) as [_ Hwalk].
  rewrite (print_tree_ok _ _ H), Hwalk. unfold trace. cbn [fst].
  rewrite !stdout_prints, !group_labels_render. auto.
Qed.

Lemma C5_entries_witness :
  distinct_names (names scenario_a ".") = true
  /\ result (Json.walk_dir_json (names scenario_a ".")) = inr scenario_a_tree
  /\ exists ents,
      scenario_a_tree = map encode ents
      /\ every_level ascending ents = true
      /\ group_labels ""
           (stdout (trace (Json.print_tree (PList scenario_a_tree) "")))
         = map (label spec_suffix) ents
      /\ group_labels ""
           (stdout (trace (walk_dir_default (names scenario_a ".") "" false)))
         = map (label text_suffix) ents.
Proof.
  split; [reflexivity|]. split; [reflexivity|].
  apply (C5_entries_in_ascending_order (names scenario_a ".")); reflexivity.
Defined.

(** C6.  When an output path is supplied and the file can be opened, the
    file is opened for writing with encoding utf-8 and one document is
    dumped with indentation 4: an object with the keys [root] (the base name
    of the root) and [structure] (the list of node objects), in which every
    directory node has the keys [type], [name], [children] (a list) and every
    file node the keys [type], [name], [comment], the comment being the
    annotation of the name, empty for every name outside the table. *)
Theorem C6_json_document_shape h root_path path tree :
  result (Json.walk_dir_json (names h root_path)) = inr tree ->
  path <> "" ->
  open_ok h path = true ->
  file_events (trace (generate_tree_map_json h root_path (Some path)))
  = [ Open path "w" "utf-8";
      JsonDump path
        (PDict [("root", PStr (basename_abspath h root_path));
                ("structure", PList tree)]) 4 ]
  /\ Forall node_shape tree
  /\ (forall name,
        name <> "main.py" -> name <> "pyproject.toml" ->
        Json.comment_for_file name = "").
Proof.
  intros H Hpath Hopen. split; [|split].
  - rewrite (json_run_ok _ _ _ _ H), (print_tree_ok _ _ H).
    unfold trace. cbn [fst file_events filter].
    fold (file_events
            (map Print (render_spec spec_suffix (scan_spec (names h root_path)) "")
             ++ fst (save_step h (basename_abspath h root_path) tree (Some path)))).
    rewrite file_events_app, file_events_prints.
    destruct path as [|a path]; [contradiction|].
    cbn [save_step]. rewrite Hopen.
    destruct (dump_ok h (String a path)); reflexivity.
  - destruct (walk_dir_json_ok _ _ H) as [_ ->]. apply scan_shape.
  - exact json_comment_other.
Qed.

Lemma C6_json_document_witness :
  result (Json.walk_dir_json (names scenario_a ".")) = inr scenario_a_tree
  /\ file_events
       (trace (generate_tree_map_json scenario_a "." (Some "o.json")))
     = [ Open "o.json" "w" "utf-8";
         JsonDump "o.json"
           (PDict [("root", PStr "root");
                   ("structure", PList scenario_a_tree)]) 4 ]
  /\ Forall node_shape scenario_a_tree.
Proof.
  split; [reflexivity|].
  destruct (C6_json_document_shape scenario_a "." "o.json" scenario_a_tree)
    as (H1 & H2 & _); [reflexivity|discriminate|reflexivity|].
  split; [exact H1|exact H2].
Defined.

(** C7.  When the root path does not name a directory,
    [generate_tree_map_json] raises [ValueError] with an empty trace:
    nothing has been printed and no file has been opened or written. *)
Theorem C7_not_a_directory_raises_before_output h root_path o :
  isdir (names h root_path) = false ->
  generate_tree_map_json h root_path o
  = ([], inl (ValueError ("'" ++ root_path ++ "' is not a valid directory."))).
Proof. apply json_run_not_dir. Qed.

Lemma C7_not_a_directory_witness :
  generate_tree_map_json scenario_d "notes.txt" (Some "o.json")
  = ([], inl (ValueError "'notes.txt' is not a valid directory.")).
Proof.
  apply (C7_not_a_directory_raises_before_output scenario_d "notes.txt").
  reflexivity.
Defined.

(** C8.  When [generate_tree_map_json] fails to open or write the output
    file, the structure has been built and the whole text tree printed: the
    trace is that of the complete run without output path, followed by the
    attempt to open the file and, if that succeeded, the dump. *)
Theorem C8_write_error_after_printing h root_path o :
  result (generate_tree_map_json h root_path o) = inl WriteError ->
  exists tree path writes,
    o = Some path
    /\ result (Json.walk_dir_json (names h root_path)) = inr tree
    /\ generate_tree_map_json h root_path None
       = (map Print (tree_lines h root_path tree), inr tt)
    /\ trace (generate_tree_map_json h root_path o)
       = (map Print (tree_lines h root_path tree) ++ writes)%list
    /\ stdout writes = []
    /\ (writes = [Open path "w" "utf-8"]
        \/ writes
           = [Open path "w" "utf-8";
              JsonDump path
                (PDict [("root", PStr (basename_abspath h root_path));
                        ("structure", PList tree)]) 4]).
Proof.
  intros Herr.
  destruct (isdir (names h root_path)) eqn:Hd.
  2:{ rewrite (json_run_not_dir _ _ _ Hd) in Herr.
      discriminate. }
  destruct (result (Json.walk_dir_json (names h root_path)))
    as [e|tree] eqn:Hw.
  { rewrite (json_run_err _ _ _ _ Hd Hw) in Herr. cbn in Herr.
    destruct (walk_dir_json_err _ _ Hw) as [_ [E|[E|E]]]; congruence. }
  assert (Hlines : map Print (tree_lines h root_path tree)
                   = Print (basename_abspath h root_path ++ "/")
                       :: trace (Json.print_tree (PList tree) "")).
  { unfold tree_lines. rewrite (print_tree_ok _ _ Hw). unfold trace.
    cbn [fst map]. now rewrite stdout_prints. }
  assert (Hnone : generate_tree_map_json h root_path None
                  = (map Print (tree_lines h root_path tree), inr tt)).
  { rewrite (json_run_ok _ _ _ _ Hw), Hlines. cbn [save_step ret trace fst].
    unfold result. cbn [snd]. now rewrite app_nil_r. }
  rewrite (json_run_ok h root_path o tree Hw) in Herr.
  rewrite (json_run_ok h root_path o tree Hw).
  unfold result in Herr. cbn [snd] in Herr.
  destruct o as [[|a path]|]; try discriminate Herr.
  exists tree, (String a path),
    (trace (save_step h (basename_abspath h root_path) tree
              (Some (String a path)))).
  split; [reflexivity|]. split; [reflexivity|]. split; [exact Hnone|].
  split; [unfold trace at 1; cbn [fst]; now rewrite Hlines|].
  revert Herr. unfold result. cbn [save_step].
  destruct (open_ok h (String a path)); [|cbn; auto].
  destruct (dump_ok h (String a path)); [discriminate|cbn; auto].
Qed.

Lemma C8_write_error_witness :
  result (generate_tree_map_json read_only_host "." (Some "o.json"))
  = inl WriteError
  /\ exists tree path writes,
      Some "o.json" = Some path
      /\ result (Json.walk_dir_json (names read_only_host ".")) = inr tree
      /\ generate_tree_map_json read_only_host "." None
         = (map Print (tree_lines read_only_host "." tree), inr tt)
      /\ trace (generate_tree_map_json read_only_host "." (Some "o.json"))
         = (map Print (tree_lines read_only_host "." tree) ++ writes)%list
      /\ stdout writes = []
      /\ (writes = [Open path "w" "utf-8"]
          \/ writes
             = [Open path "w" "utf-8";
                JsonDump path
                  (PDict [("root", PStr (basename_abspath read_only_host "."));
                          ("structure", PList tree)]) 4]).
Proof.
  split; [reflexivity|].
  apply (C8_write_error_after_printing read_only_host "." (Some "o.json")).
  reflexivity.
Defined.

(** C9.  [generate_tree_map] does not test its argument: on a path that
    does not name a directory it prints the root line and then raises the
    error of the listing, while [generate_tree_map_json] raises
    [ValueError] there before any output. *)
Theorem C9_text_operation_prints_root_then_fails
    h root_path indent last_indent spacer final_spacer o :
  isdir (names h root_path) = false ->
  exists e,
    listdir (names h root_path) = inl e
    /\ generate_tree_map h root_path indent last_indent spacer final_spacer
       = ([Print (basename_abspath h root_path ++ "/")], inl e)
    /\ (forall msg, e <> ValueError msg)
    /\ exists msg,
        generate_tree_map_json h root_path o = ([], inl (ValueError msg)).
Proof.
  intros H. unfold generate_tree_map.
  rewrite (json_run_not_dir _ _ o H).
  destruct (names h root_path) as [| |b es]; [| |discriminate].
  - exists FileNotFoundError. repeat split; [discriminate|eauto].
  - exists NotADirectoryError. repeat split; [discriminate|eauto].
Qed.

Lemma C9_text_operation_witness :
  exists e,
    listdir (names scenario_d "notes.txt") = inl e
    /\ generate_tree_map_default scenario_d "notes.txt"
       = ([Print (basename_abspath scenario_d "notes.txt" ++ "/")], inl e)
    /\ (forall msg, e <> ValueError msg)
    /\ exists msg,
        generate_tree_map_json scenario_d "notes.txt" None
        = ([], inl (ValueError msg)).
Proof.
  apply (C9_text_operation_prints_root_then_fails scenario_d "notes.txt").
  reflexivity.
Defined.

(** C10.  Without output path no file is opened or written and standard
    output holds exactly the lines of the tree.  With an output path, when
    the file was opened and nothing was raised, standard output holds the
    lines of the tree followed by the one confirmation line. *)
Theorem C10_confirmation_line h root_path :
  (opened (trace (generate_tree_map_json h root_path None)) = []
   /\ dumped (trace (generate_tree_map_json h root_path None)) = []
   /\ forall tree,
       result (Json.walk_dir_json (names h root_path)) = inr tree ->
       stdout (trace (generate_tree_map_json h root_path None))
       = tree_lines h root_path tree)
  /\ (forall path,
        result (generate_tree_map_json h root_path (Some path)) = inr tt ->
        In path (opened (trace (generate_tree_map_json h root_path (Some path)))) ->
        exists tree,
          result (Json.walk_dir_json (names h root_path)) = inr tree
          /\ stdout (trace (generate_tree_map_json h root_path (Some path)))
             = (tree_lines h root_path tree
                  ++ [(newline ++ "✅ Tree structure saved to " ++ path)%string])%list).
Proof.
  destruct (isdir (names h root_path)) eqn:Hd.
  2:{ split.
      - rewrite (json_run_not_dir _ _ None Hd). cbn.
        repeat split. intros tree H.
        apply walk_dir_json_isdir in H. congruence.
      - intros path H. rewrite (json_run_not_dir _ _ _ Hd) in H.
        discriminate. }
  destruct (result (Json.walk_dir_json (names h root_path)))
    as [e|tree] eqn:Hw.
  { split.
    - rewrite (json_run_err _ _ None _ Hd Hw). cbn.
      repeat split. discriminate.
    - intros path H. rewrite (json_run_err _ _ _ _ Hd Hw) in H.
      discriminate. }
  split.
  - destruct (json_run_stdout h root_path None tree Hw) as (Hs & Ho & Hdump).
    rewrite Ho, Hdump. cbn. repeat split.
    intros tree' [= <-]. rewrite Hs. cbn [save_step ret trace fst stdout].
    apply app_nil_r.
  - intros path Hres Hin. exists tree. split; [reflexivity|].
    destruct (json_run_stdout h root_path (Some path) tree Hw)
      as (Hs & Ho & _).
    rewrite Hs. rewrite Ho in Hin. f_equal.
    rewrite (json_run_ok h root_path (Some path) tree Hw) in Hres.
    unfold result in Hres. cbn [snd] in Hres.
    destruct path as [|a path]; [destruct Hin|].
    revert Hres. cbn [save_step].
    destruct (open_ok h (String a path)); [|discriminate].
    destruct (dump_ok h (String a path)); [|discriminate].
    reflexivity.
Qed.

Lemma C10_confirmation_witness :
  result (generate_tree_map_json scenario_a "." (Some "o.json")) = inr tt
  /\ In "o.json"
       (opened (trace (generate_tree_map_json scenario_a "." (Some "o.json"))))
  /\ exists tree,
      result (Json.walk_dir_json (names scenario_a ".")) = inr tree
      /\ stdout (trace (generate_tree_map_json scenario_a "." (Some "o.json")))
         = (tree_lines scenario_a "." tree
              ++ [(newline ++ "✅ Tree structure saved to " ++ "o.json")%string])%list.
Proof.
  split; [reflexivity|]. split; [left; reflexivity|].
  apply (C10_confirmation_line scenario_a ".").
  - reflexivity.
  - left. reflexivity.
Defined.

(** * Further properties of the code *)

(** ** Indentation is a prefix of every line *)

Lemma bind_congr {A B} (m m' : M A) (k k' : A -> M B) :
  m = m' -> (forall a, k a = k' a) -> bind m k = bind m' k'.
Proof. intros <-. apply bind_ext. Qed.




Section TextPrefix.
Variables indent last_indent spacer final_spacer : string.



End TextPrefix.


Lemma subscript_lookup {A} key (k : pyval -> M A) items :
  Json.subscript key k (PDict items)
  = match dict_lookup key items with
    | Some v => k v
    | None => raise (KeyError key)
    end.
Proof.
  cbn [Json.subscript].
  induction items as [|[k' v] items IH]; cbn; [reflexivity|].
  destruct (String.eqb k' key); [reflexivity|exact IH].
Qed.




(** ** What the walkers emit and raise *)


Section TextEvents.
Variables indent last_indent spacer final_spacer : string.



End TextEvents.



(** ** The order in which [os.listdir] reports the entries *)

Lemma sorted_unique l l' :
  StronglySorted le_str l -> StronglySorted le_str l' ->
  Permutation l l' -> l = l'.
Proof.
  intros Hl. revert l'. induction Hl as [|x l Hl IH Hx]; intros l' Hl' Hp.
  - apply Permutation_nil in Hp. now subst.
  - destruct Hl' as [|y l' Hl' Hy].
    + apply Permutation_sym, Permutation_nil in Hp. discriminate.
    + assert (Hxy : x = y).
      { assert (Hin1 : In x (y :: l'))
          by (eapply Permutation_in; [exact Hp|now left]).
        assert (Hin2 : In y (x :: l))
          by (eapply Permutation_in; [symmetry; exact Hp|now left]).
        destruct Hin1 as [->|Hin1]; [reflexivity|].
        destruct Hin2 as [->|Hin2]; [reflexivity|].
        rewrite Forall_forall in Hx, Hy.
        apply String.leb_antisym; [apply Hx, Hin2|apply Hy, Hin1]. }
      subst y. f_equal. apply IH; [exact Hl'|].
      eapply Permutation_cons_inv. exact Hp.
Qed.

Lemma sorted_permutation l l' : Permutation l l' -> sorted l = sorted l'.
Proof.
  intros H. apply sorted_unique; try apply sorted_sorted.
  rewrite sorted_perm, H. symmetry. apply sorted_perm.
Qed.

Lemma child_permutation name es es' :
  Permutation es es' -> NoDup (map fst es) -> child name es = child name es'.
Proof.
  induction 1 as [|[n c] es es' Hp IH|[n1 c1] [n2 c2] es|es es' es'' H1 IH1 H2 IH2];
    intros Hnd.
  - reflexivity.
  - cbn. inversion Hnd; subst. now rewrite IH.
  - cbn. destruct (String.eqb_spec n2 name) as [E2|_];
      destruct (String.eqb_spec n1 name) as [E1|_]; try reflexivity.
    subst. cbn in Hnd. inversion Hnd as [|? ? Hnotin _]; subst.
    exfalso. apply Hnotin. now left.
  - rewrite IH1 by exact Hnd. apply IH2.
    eapply Permutation_NoDup; [|exact Hnd]. now apply Permutation_map.
Qed.

Lemma relisted_refl d : relisted d d.
Proof.
  induction d as [| |b es IH] using fsnode_ind'; constructor; [reflexivity|].
  intros name. apply child_in; [constructor|exact IH].
Qed.

Lemma if_isdir_alike {A} name (k k' : fsnode -> A) k_other es es' :
  relisted (child name es) (child name es') ->
  (forall b cs b' cs',
      child name es = Dir b cs -> child name es' = Dir b' cs' ->
      k (Dir b cs) = k' (Dir b' cs')) ->
  if_isdir name k k_other es = if_isdir name k' k_other es'.
Proof.
  intros Hr Hk. rewrite !if_isdir_child.
  inversion Hr as [E1 E2|E1 E2|b cs cs' Hp Hc E1 E2]; try reflexivity.
  symmetry in E1, E2. exact (Hk _ _ _ _ E1 E2).
Qed.

Lemma relisted_walks_alike d d' : relisted d d' -> walks_alike d d'.
Proof.
  induction 1 as [| |b es es' Hp Hc IH]; try (split; reflexivity).
  destruct b; [|split; reflexivity].
  assert (Hnames : skip_hidden (sorted (map fst es'))
                   = skip_hidden (sorted (map fst es)))
    by (now rewrite (sorted_permutation _ _ Hp)).
  split.
  - intros I L S F prefix is_last. cbn [Text.walk_dir]. rewrite Hnames.
    generalize (Z.of_nat (length (skip_hidden (sorted (map fst es))))).
    generalize 0. generalize (skip_hidden (sorted (map fst es))).
    intros rest. induction rest as [|entry rest IHrest]; intros index n;
      [reflexivity|].
    cbn [Text.walk_loop].
    apply bind_congr; [|intros _; apply IHrest].
    apply if_isdir_alike; [apply Hc|].
    intros b cs b' cs' E1 E2. destruct (IH entry) as [Ht _].
    rewrite E1, E2 in Ht. now rewrite Ht.
  - cbn [Json.walk_dir_json]. rewrite Hnames.
    generalize (@nil pyval). generalize (skip_hidden (sorted (map fst es))).
    intros rest. induction rest as [|entry rest IHrest]; intros acc;
      [reflexivity|].
    cbn [Json.walk_loop_json].
    apply bind_congr; [|intros tree; apply IHrest].
    apply if_isdir_alike; [apply Hc|].
    intros b cs b' cs' E1 E2. destruct (IH entry) as [_ Hj].
    rewrite E1, E2 in Hj. now rewrite Hj.
Qed.

(** ** One line for every entry *)

Lemma render_group_length suffix prefix ents :
  Forall (fun e => forall p l,
            length (render_entry suffix p e l) = count_entry e) ents ->
  length (render_group (render_entry suffix prefix) ents) = count_entries ents.
Proof.
  induction 1 as [|e ents He _ IH]; [reflexivity|].
  cbn [render_group count_entries fold_right].
  rewrite length_app, He. f_equal. exact IH.
Qed.

Lemma render_entry_length suffix e p l :
  length (render_entry suffix p e l) = count_entry e.
Proof.
  revert p l. induction e as [n c|n cs IH] using entry_ind'; intros p l;
    [reflexivity|].
  cbn [render_entry count_entry length]. f_equal.
  apply (render_group_length suffix _ cs IH).
Qed.

Lemma render_spec_length suffix ents prefix :
  length (render_spec suffix ents prefix) = count_entries ents.
Proof.
  apply render_group_length, Forall_forall. intros e _ p l.
  apply render_entry_length.
Qed.

(** ** Every listed name, once, with its kind *)

Lemma scan_entry_kind es name :
  is_dir_entry (scan_entry scan_spec es name) = isdir (child name es)
  /\ (isdir (child name es) = false ->
      scan_entry scan_spec es name
      = EFile name (Json.comment_for_file name)).
Proof.
  unfold scan_entry. rewrite if_isdir_child.
  destruct (child name es); cbn; auto. split; [reflexivity|discriminate].
Qed.

Lemma skip_hidden_sorted_perm l :
  Permutation (skip_hidden (sorted l)) (skip_hidden l).
Proof.
  unfold skip_hidden. rewrite filter_sorted. apply sorted_perm.
Qed.

Lemma first_is_last (node : pyval) (rest : list pyval) :
  (0 =? Z.of_nat (length (node :: rest)) - 1) = is_nil rest.
Proof.
  destruct rest; [reflexivity|]. apply Z.eqb_neq. cbn [length]. lia.
Qed.

Lemma relisted_permutation b es es' :
  Permutation es es' -> distinct (map fst es) = true ->
  relisted (Dir b es) (Dir b es').
Proof.
  intros Hp Hd. constructor; [now apply Permutation_map|].
  intros name. rewrite (child_permutation name es es' Hp)
    by now apply distinct_NoDup.
  apply relisted_refl.
Qed.


Lemma save_step_opened h root_name tree o :
  opened (trace (save_step h root_name tree o))
  = match o with
    | Some (String a path) => [String a path]
    | _ => []
    end.
Proof.
  destruct o as [[|a path]|]; try reflexivity.
  cbn [save_step]. destruct (open_ok h (String a path)); [|reflexivity].
  destruct (dump_ok h (String a path)); reflexivity.
Qed.

(** * The further properties *)

(** X1.  On every list of node objects of the shape [walk_dir_json] writes,
    whatever the names, the comments and the order, [print_tree] raises
    nothing and prints one line for every node, depth first: the prefix, the
    glyph [└── ] for the last node of a sibling group and [├── ] for the
    others, the name, then [/] for a directory and, for a file, a space and
    the comment when the comment is not empty; the children of a node are
    printed with the prefix extended by four spaces below a last node and by
    [│   ] below the others. *)
Theorem X1_print_tree_renders_node_lists ents prefix :
  Json.print_tree (PList (map encode ents)) prefix
  = (map Print (render_spec spec_suffix ents prefix), inr tt)
  /\ length (render_spec spec_suffix ents prefix) = count_entries ents.
Proof. split; [apply print_tree_render|apply render_spec_length]. Qed.

(** X2.  What [print_tree] does at a node that lacks what it reads: a value
    that is not a [dict] raises [TypeError]; a [dict] without the key [type]
    raises [KeyError] with nothing printed; a node whose type is not
    ["directory"] is read as a file, and without the key [comment] raises
    [KeyError] before its line is printed; a directory node without the key
    [children] raises [KeyError] after its own line has been printed. *)
Theorem X2_print_tree_malformed_node items rest prefix :
  (forall v, (forall items', v <> PDict items') ->
     Json.print_tree (PList (v :: rest)) prefix = ([], inl TypeError))
  /\ (dict_lookup "type" items = None ->
      Json.print_tree (PList (PDict items :: rest)) prefix
      = ([], inl (KeyError "type")))
  /\ (forall ty,
        dict_lookup "type" items = Some ty ->
        Json.eq_str ty "directory" = false ->
        dict_lookup "comment" items = None ->
        Json.print_tree (PList (PDict items :: rest)) prefix
        = ([], inl (KeyError "comment")))
  /\ (forall name,
        dict_lookup "type" items = Some (PStr "directory") ->
        dict_lookup "name" items = Some (PStr name) ->
        dict_lookup "children" items = None ->
        Json.print_tree (PList (PDict items :: rest)) prefix
        = ([Print (prefix ++ (if is_nil rest then "└── " else "├── ")
                     ++ name ++ "/")],
           inl (KeyError "children")))
  /\ (forall ty name comment,
        dict_lookup "type" items = Some ty ->
        Json.eq_str ty "directory" = false ->
        dict_lookup "name" items = Some (PStr name) ->
        dict_lookup "comment" items = Some (PStr comment) ->
        Json.print_tree (PList [PDict items]) prefix
        = ([Print (prefix ++ "└── " ++ name ++ spec_suffix name comment)],
           inr tt)).
Proof.
  repeat split.
  - intros v Hv. rewrite print_tree_list. cbn [Json.print_loop].
    destruct v as [s|l|items']; [reflexivity|reflexivity|].
    now destruct (Hv items').
  - intros H. rewrite print_tree_list. cbn [Json.print_loop].
    now rewrite subscript_lookup, H.
  - intros ty Hty Hdir Hc. rewrite print_tree_list. cbn [Json.print_loop].
    rewrite subscript_lookup, Hty. cbv beta iota. rewrite Hdir.
    now rewrite subscript_lookup, Hc.
  - intros name Hty Hname Hch. rewrite print_tree_list.
    cbn [Json.print_loop]. rewrite first_is_last.
    rewrite subscript_lookup, Hty. cbv beta iota.
    cbn [Json.eq_str String.eqb Ascii.eqb Bool.eqb].
    rewrite subscript_lookup, Hname. cbv beta iota. cbn [Json.format].
    rewrite bind_ret, bind_print, subscript_lookup, Hch. reflexivity.
  - intros ty name comment Hty Hdir Hname Hc. rewrite print_tree_list.
    cbn [Json.print_loop length]. cbn [Z.of_nat Pos.of_succ_nat Z.sub Z.eqb
      Z.add Z.opp Z.pos_sub].
    rewrite subscript_lookup, Hty. cbv beta iota. rewrite Hdir.
    rewrite subscript_lookup, Hc. cbv beta iota.
    unfold spec_suffix.
    destruct comment as [|a comment]; cbn [Json.truthy String.eqb].
    + rewrite bind_ret, subscript_lookup, Hname. reflexivity.
    + rewrite subscript_lookup, Hc. cbv beta iota. cbn [Json.format].
      rewrite !bind_ret, subscript_lookup, Hname. reflexivity.
Qed.

Lemma X2_print_tree_malformed_witness :
  Json.print_tree (PList [PStr "lib"]) "" = ([], inl TypeError)
  /\ Json.print_tree (PList [PDict [("name", PStr "lib")]]) ""
     = ([], inl (KeyError "type"))
  /\ Json.print_tree
       (PList [PDict [("type", PStr "file"); ("name", PStr "a")]]) ""
     = ([], inl (KeyError "comment"))
  /\ Json.print_tree
       (PList [PDict [("type", PStr "directory"); ("name", PStr "lib")];
               PDict [("type", PStr "file"); ("name", PStr "a");
                      ("comment", PStr "")]]) ""
     = ([Print "├── lib/"], inl (KeyError "children"))
  /\ Json.print_tree
       (PList [PDict [("type", PStr "symlink"); ("name", PStr "a");
                      ("comment", PStr "note")]]) ""
     = ([Print "└── a note"], inr tt).
Proof.
  split.
  { destruct (X2_print_tree_malformed_node [] [] "") as (H & _).
    apply H. discriminate. }
  split.
  { destruct (X2_print_tree_malformed_node [("name", PStr "lib")] [] "")
      as (_ & H & _).
    apply H. reflexivity. }
  split.
  { destruct (X2_print_tree_malformed_node
                [("type", PStr "file"); ("name", PStr "a")] [] "")
      as (_ & _ & H & _).
    apply (H (PStr "file")); reflexivity. }
  split.
  { destruct (X2_print_tree_malformed_node
                [("type", PStr "directory"); ("name", PStr "lib")]
                [PDict [("type", PStr "file"); ("name", PStr "a");
                        ("comment", PStr "")]] "")
      as (_ & _ & _ & H & _).
    apply (H "lib"); reflexivity. }
  destruct (X2_print_tree_malformed_node
              [("type", PStr "symlink"); ("name", PStr "a");
               ("comment", PStr "note")] [] "")
    as (_ & _ & _ & _ & H).
  apply (H (PStr "symlink") "a" "note"); reflexivity.
Defined.








(** X7.  The order in which [os.listdir] reports the entries plays no
    part: two directories that list the same names at every level, each
    name naming the same thing, give the same run of both walkers, whatever
    the glyphs and the prefix.  Reordering a listing without repeated name
    gives such a directory. *)
Theorem X7_listing_order_irrelevant :
  (forall b es es',
      Permutation es es' -> distinct (map fst es) = true ->
      relisted (Dir b es) (Dir b es'))
  /\ (forall d d',
        relisted d d' ->
        (forall indent last_indent spacer final_spacer prefix is_last,
            Text.walk_dir indent last_indent spacer final_spacer
              d prefix is_last
            = Text.walk_dir indent last_indent spacer final_spacer
                d' prefix is_last)
        /\ Json.walk_dir_json d = Json.walk_dir_json d').
Proof.
  split; [exact relisted_permutation|exact relisted_walks_alike].
Qed.

Lemma X7_listing_order_witness :
  Json.walk_dir_json
    (Dir true [("util.py", File); ("main.py", File);
               ("lib", Dir true [("helper.py", File)])])
  = Json.walk_dir_json
      (Dir true [("main.py", File); ("util.py", File);
                 ("lib", Dir true [("helper.py", File)])]).
Proof.
  destruct X7_listing_order_irrelevant as [Hperm Hsame].
  apply Hsame. apply Hperm; [apply perm_swap|reflexivity].
Defined.

(** X8.  Nothing is left out and nothing comes twice.  When
    [walk_dir_json] returns on a directory, the names of the nodes it
    returns are the listed names that do not begin with a dot, each as
    often as the listing has it, in sorted order; a node is a directory node
    exactly when [os.path.isdir] holds of the entry, and every other entry,
    also one that has vanished or is no regular file, is a file node with
    the comment of its name. *)
Theorem X8_every_visible_name_once es tree :
  result (Json.walk_dir_json (Dir true es)) = inr tree ->
  exists ents,
    tree = map encode ents
    /\ map entry_name ents = skip_hidden (sorted (map fst es))
    /\ Permutation (map entry_name ents) (skip_hidden (map fst es))
    /\ Forall (fun e =>
                 is_dir_entry e = isdir (child (entry_name e) es)
                 /\ (isdir (child (entry_name e) es) = false ->
                     e = EFile (entry_name e)
                           (Json.comment_for_file (entry_name e))))
         ents.
Proof.
  intros H. exists (scan_spec (Dir true es)).
  destruct (walk_dir_json_ok _ _ H) as [_ Htree].
  split; [exact Htree|].
  rewrite (scan_spec_names true es).
  split; [reflexivity|]. split; [apply skip_hidden_sorted_perm|].
  cbn [scan_spec]. apply Forall_forall. intros e He.
  apply in_map_iff in He as (name & <- & _).
  rewrite scan_entry_name. apply scan_entry_kind.
Qed.

Lemma X8_every_visible_name_witness :
  exists ents,
    scenario_a_tree = map encode ents
    /\ map entry_name ents
       = skip_hidden (sorted ["util.py"; "main.py"; "lib"])
    /\ Permutation (map entry_name ents)
         (skip_hidden ["util.py"; "main.py"; "lib"])
    /\ Forall (fun e =>
                 is_dir_entry e
                 = isdir (child (entry_name e)
                            [("util.py", File); ("main.py", File);
                             ("lib", Dir true [("helper.py", File)])])
                 /\ (isdir (child (entry_name e)
                              [("util.py", File); ("main.py", File);
                               ("lib", Dir true [("helper.py", File)])])
                     = false ->
                     e = EFile (entry_name e)
                           (Json.comment_for_file (entry_name e))))
         ents.
Proof.
  apply (X8_every_visible_name_once
           [("util.py", File); ("main.py", File);
            ("lib", Dir true [("helper.py", File)])] scenario_a_tree).
  reflexivity.
Defined.

(** X9.  When the traversal raises nothing, both operations print the root
    line and exactly one line for every node of the structure, at all
    levels. *)
Theorem X9_one_line_per_entry h root_path tree :
  result (Json.walk_dir_json (names h root_path)) = inr tree ->
  exists ents,
    tree = map encode ents
    /\ length (stdout (trace (generate_tree_map_default h root_path)))
       = S (count_entries ents)
    /\ length (stdout (trace (generate_tree_map_json h root_path None)))
       = S (count_entries ents).
Proof.
  intros H. exists (scan_spec (names h root_path)).
  destruct (walk_dir_json_ok _ _ H) as [_ Htree].
  split; [exact Htree|]. split.
  - rewrite (text_run_ok _ _ _ H). unfold trace. cbn [fst stdout length].
    now rewrite stdout_prints, render_spec_length.
  - destruct (json_run_stdout h root_path None tree H) as [-> _].
    unfold tree_lines. rewrite (print_tree_ok _ _ H).
    unfold trace. cbn [fst save_step ret stdout].
    rewrite stdout_prints, app_nil_r. cbn [length].
    now rewrite render_spec_length.
Qed.

Lemma X9_one_line_per_entry_witness :
  exists ents,
    scenario_a_tree = map encode ents
    /\ length (stdout (trace (generate_tree_map_default scenario_a ".")))
       = S (count_entries ents)
    /\ length (stdout (trace (generate_tree_map_json scenario_a "." None)))
       = S (count_entries ents).
Proof.
  apply (X9_one_line_per_entry scenario_a "." scenario_a_tree). reflexivity.
Defined.

(** X10.  [generate_tree_map_json] opens the output file exactly when it is
    given a non-empty output path and the traversal has raised nothing, and
    then opens that one file once: a root that is not a directory or a
    failed listing leaves an existing file untouched, and so does the empty
    string as output path. *)
Theorem X10_output_file_opened_after_traversal h root_path o :
  (forall p,
      In p (opened (trace (generate_tree_map_json h root_path o)))
      <-> o = Some p /\ p <> ""
          /\ exists tree,
              result (Json.walk_dir_json (names h root_path)) = inr tree)
  /\ (length (opened (trace (generate_tree_map_json h root_path o))) <= 1)%nat.
Proof.
  destruct (isdir (names h root_path)) eqn:Hd.
  2:{ rewrite (json_run_not_dir _ _ _ Hd). cbn. split; [|lia].
      intros p. split; [intros []|].
      intros (_ & _ & tree & H). apply walk_dir_json_isdir in H. congruence. }
  destruct (result (Json.walk_dir_json (names h root_path)))
    as [e|tree] eqn:Hw.
  { rewrite (json_run_err _ _ _ _ Hd Hw). cbn. split; [|lia].
    intros p. split; [intros []|]. intros (_ & _ & tree & H). discriminate. }
  destruct (json_run_stdout h root_path o tree Hw) as (_ & -> & _).
  rewrite save_step_opened.
  destruct o as [[|a path]|]; cbn [length In].
  - split; [|lia]. intros p. split; [intros []|].
    intros ([= <-] & H & _). now destruct H.
  - split; [|lia]. intros p. split.
    + intros [<-|[]]. repeat split; [discriminate|eauto].
    + intros ([= <-] & _). now left.
  - split; [|lia]. intros p. split; [intros []|]. intros (H & _).
    discriminate.
Qed.

Lemma X10_output_file_witness :
  In "o.json"
    (opened (trace (generate_tree_map_json scenario_a "." (Some "o.json"))))
  /\ ~ In "o.json"
       (opened (trace (generate_tree_map_json locked_host "." (Some "o.json")))).
Proof.
  split.
  - apply (X10_output_file_opened_after_traversal scenario_a "."
             (Some "o.json")).
    repeat split; [discriminate|]. exists scenario_a_tree. reflexivity.
  - intros H.
    apply (X10_output_file_opened_after_traversal locked_host "."
             (Some "o.json")) in H.
    destruct H as (_ & _ & tree & H). discriminate H.
Defined.

(** X11.  Which names are annotated.  Both annotators return a non-empty
    comment exactly for the names [main.py] and [pyproject.toml], compared
    exactly and with case, and the comment of [generate_tree_map] is that
    of [generate_tree_map_json] with one more marker and a space in front. *)
Theorem X11_annotated_names name :
  (Json.comment_for_file name <> ""
   <-> name = "main.py" \/ name = "pyproject.toml")
  /\ (Text.comment_for_file name <> ""
      <-> name = "main.py" \/ name = "pyproject.toml")
  /\ Text.comment_for_file name
     = if String.eqb (Json.comment_for_file name) "" then ""
       else "◀ " ++ Json.comment_for_file name.
Proof.
  unfold Json.comment_for_file, Text.comment_for_file,
    Json.special_comments, Text.special_comments.
  cbn [Text.dict_get].
  destruct (String.eqb_spec "main.py" name) as [<-|H1].
  { repeat split; auto; discriminate. }
  destruct (String.eqb_spec "pyproject.toml" name) as [<-|H2].
  { repeat split; auto; discriminate. }
  repeat split; try (intros H; now destruct H).
  - intros [E|E]; congruence.
  - intros [E|E]; congruence.
Qed.

(** X12.  On a directory the two operations end alike: called without
    output path, [generate_tree_map_json] returns when [generate_tree_map]
    returns and raises the error [generate_tree_map] raises. *)
Theorem X12_operations_end_alike h root_path :
  isdir (names h root_path) = true ->
  result (generate_tree_map_default h root_path)
  = result (generate_tree_map_json h root_path None).
Proof.
  intros Hd.
  destruct (result (Json.walk_dir_json (names h root_path)))
    as [e|tree] eqn:Hw.
  - rewrite (json_run_err _ _ _ _ Hd Hw).
    unfold generate_tree_map_default, generate_tree_map.
    rewrite bind_print. unfold result. cbn [snd].
    exact (errors_agree_all (names h root_path) e Hw "" false).
  - rewrite (text_run_ok _ _ _ Hw), (json_run_ok h root_path None tree Hw).
    reflexivity.
Qed.

Lemma X12_operations_end_alike_witness :
  result (generate_tree_map_default locked_host ".")
  = result (generate_tree_map_json locked_host "." None).
Proof.
  apply (X12_operations_end_alike locked_host "."). reflexivity.
Defined.

(** ** The text walker with any glyphs *)

Section TextGlyphs.
Variables indent last_indent spacer final_spacer : string.

Lemma walk_loop_renders es :
  Forall (fun pr => text_walk_renders indent last_indent spacer final_spacer
                      (snd pr)) es ->
  forall rest acc tree,
    snd (Json.walk_loop_json Json.walk_dir_json es acc rest) = inr tree ->
    forall prefix n index,
      index + Z.of_nat (length rest) = n ->
      Text.walk_loop indent last_indent spacer final_spacer
        (Text.walk_dir indent last_indent spacer final_spacer)
        es prefix n index rest
      = (map Print
           (render_with indent last_indent spacer final_spacer text_suffix
              (map (scan_entry scan_spec es) rest) prefix),
         inr tt).
Proof.
  intros Hes. induction rest as [|entry rest IH];
    intros acc tree H prefix n index Hn; [reflexivity|].
  cbn [Json.walk_loop_json Text.walk_loop map length] in *.
  rewrite result_bind, if_isdir_child in H. rewrite if_isdir_child.
  unfold scan_entry at 1. rewrite if_isdir_child.
  rewrite (is_last_test_names rest index n) by lia.
  assert (Hc : text_walk_renders indent last_indent spacer final_spacer
                 (child entry es)).
  { apply child_in; [|exact Hes]. intros t. discriminate. }
  unfold render_with in *. cbn [render_group].
  destruct (child entry es) as [| |b cs].
  - cbn [ret snd] in H. rewrite bind_print.
    rewrite (IH _ _ H prefix n (index + 1)) by lia.
    cbn. now rewrite is_nil_map, append_assoc.
  - cbn [ret snd] in H. rewrite bind_print.
    rewrite (IH _ _ H prefix n (index + 1)) by lia.
    cbn. now rewrite is_nil_map, append_assoc.
  - rewrite result_bind in H.
    destruct (snd (Json.walk_dir_json (Dir b cs))) as [e|subtree] eqn:Hw;
      [discriminate H|].
    cbn [ret snd] in H.
    rewrite bind_print, (Hc subtree Hw). cbn [fst snd].
    rewrite (bind_ok _ _ _ tt) by reflexivity.
    rewrite (IH _ _ H prefix n (index + 1)) by lia.
    cbn. now rewrite is_nil_map, map_app, append_assoc.
Qed.

Lemma text_walk_renders_all d :
  text_walk_renders indent last_indent spacer final_spacer d.
Proof.
  induction d as [| |b es IH] using fsnode_ind'; intros tree H;
    try discriminate H.
  destruct b; [|discriminate H].
  intros prefix is_last.
  apply (walk_loop_renders es IH _ [] tree H). lia.
Qed.
End TextGlyphs.

(** X13.  What [generate_tree_map] prints with any glyphs.  When the
    traversal raises nothing, it returns after printing the root line and
    the entries of the structure drawn with its arguments: [last_indent]
    before the last entry of a sibling group and [indent] before the others,
    [final_spacer] added to the prefix below a last entry and [spacer] below
    the others, [/] after the name of a directory and a space and the
    comment after the name of a file. *)
Theorem X13_text_tree_with_any_glyphs
    h root_path indent last_indent spacer final_spacer tree :
  result (Json.walk_dir_json (names h root_path)) = inr tree ->
  exists ents,
    tree = map encode ents
    /\ generate_tree_map h root_path indent last_indent spacer final_spacer
       = (map Print
            ((basename_abspath h root_path ++ "/")
               :: render_with indent last_indent spacer final_spacer
                    (fun name _ => " " ++ Text.comment_for_file name)
                    ents ""),
          inr tt).
Proof.
  intros H. exists (scan_spec (names h root_path)).
  destruct (walk_dir_json_ok _ _ H) as [_ Htree].
  split; [exact Htree|].
  unfold generate_tree_map. rewrite bind_print.
  now rewrite (text_walk_renders_all indent last_indent spacer final_spacer
                 (names h root_path) tree H "" false).
Qed.

Lemma X13_text_tree_witness :
  exists ents,
    scenario_a_tree = map encode ents
    /\ generate_tree_map scenario_a "." "+-" "`-" "| " "  "
       = (map Print
            ((basename_abspath scenario_a "." ++ "/")
               :: render_with "+-" "`-" "| " "  "
                    (fun name _ => " " ++ Text.comment_for_file name)
                    ents ""),
          inr tt).
Proof.
  apply (X13_text_tree_with_any_glyphs scenario_a "." "+-" "`-" "| " "  ").
  reflexivity.
Defined.


